(** * Microgames Challenge: the game container, its projections and the
      microgames, embedded from the TypeScript sources.

    Numbers are JavaScript numbers holding integers (timestamps in
    milliseconds, level indices); they are modelled as [Z], which is exact
    below 2^53.  React state is modelled as the source uses it: a handler is
    a closure over the values of one render, [setState] queues an updater,
    and the queue is applied, in order, when the handler has returned. *)

From Stdlib Require Import ZArith List String Ascii Bool Lia Permutation.
From Stdlib Require Import DecimalString DecimalPos DecimalZ.
Import ListNotations.
Local Open Scope Z_scope.

(** ** JavaScript values used by the components *)
Module Js.

(** [v ? a : b] on a [number | null]: [null] and [0] are falsy. *)
Definition truthy (v : option Z) : bool :=
  match v with
  | Some n => negb (n =? 0)
  | None => false
  end.

(** [v || 0], and [null] in arithmetic. *)
Definition toNumber (v : option Z) : Z :=
  match v with
  | Some n => n
  | None => 0
  end.

(** An array; [None] is a hole, which reads as [undefined]. *)
Definition Array (A : Type) : Type := list (option A).

(** [Array(n).fill(v)]; the entries are one shared object, which nothing
    here mutates. *)
Definition fill {A : Type} (n : nat) (v : A) : Array A := repeat (Some v) n.

(** [a[i]] for an integer [i]; [None] is [undefined]. *)
Definition get {A : Type} (a : Array A) (i : Z) : option A :=
  if i <? 0 then None
  else match nth_error a (Z.to_nat i) with
       | Some x => x
       | None => None
       end.

(** [a[n] = v] for [n >= 0]: past the end the array grows, leaving holes. *)
Fixpoint store {A : Type} (a : Array A) (n : nat) (v : A) : Array A :=
  match a, n with
  | [], _ => repeat None n ++ [Some v]
  | _ :: rest, O => Some v :: rest
  | x :: rest, S n' => x :: store rest n' v
  end.

(** [a[i] = v] on a copy of [a].  A negative [i] names a property that is
    not an element: the elements stay as they are, and the next spread
    [[...a]] drops the property. *)
Definition set {A : Type} (a : Array A) (i : Z) (v : A) : Array A :=
  if i <? 0 then a else store a (Z.to_nat i) v.

End Js.

(** ** types/game.types.ts *)

Module GameState.
Inductive t : Set := idle | playing | completed.

Definition eqb (a b : t) : bool :=
  match a, b with
  | idle, idle | playing, playing | completed, completed => true
  | _, _ => false
  end.
End GameState.

Record LevelResult := {
  completed : bool;
  skipped : bool;
  timeSpent : Z
}.

Record GameContainerState := {
  gameState : GameState.t;
  currentLevel : Z;
  startTime : option Z;
  totalTime : Z;
  levelResults : Js.Array LevelResult;
  showSkipButton : bool
}.

(** ** components/Timer.tsx *)
Module Timer.

Record TimerProps := {
  startTime : Z;
  additionalTime : Z
}.

(** What the interval callback passes to [setDisplayTime] at [now]; the
    effect installs no interval when [startTime === 0] and shows 0. *)
Definition displayTime (p : TimerProps) (now : Z) : Z :=
  if startTime p =? 0 then 0
  else
    let elapsed := now - startTime p in
    elapsed + additionalTime p.

End Timer.

(** ** The React runtime seen by one handler call *)
Module React.

(** What [setTimeout] returns; every handle is truthy. *)
Definition TimerHandle := positive.

(** A pending timeout of the container.  The container registers one
    callback only, [setState((prev) => ({ ...prev, showSkipButton: true }))]. *)
Record Timer := {
  handle : TimerHandle;
  due : Z
}.

Definition Updater := GameContainerState -> GameContainerState.

Record Env : Type := {
  now : Z;                                  (* Date.now() *)
  pending : list Timer;                     (* timeouts not yet fired *)
  nextHandle : TimerHandle;
  stateQueue : list Updater;                (* setState calls, oldest first *)
  timerQueue : list (option TimerHandle)    (* setSkipButtonTimer calls *)
}.

Definition Handler (A : Type) : Type := Env -> A * Env.

Definition ret {A : Type} (a : A) : Handler A := fun e => (a, e).

Definition bind {A B : Type} (c : Handler A) (k : A -> Handler B) : Handler B :=
  fun e => let (a, e') := c e in k a e'.

Definition Date_now : Handler Z := fun e => (now e, e).

Definition setState (u : Updater) : Handler unit :=
  fun e => (tt, {| now := now e; pending := pending e; nextHandle := nextHandle e;
                   stateQueue := stateQueue e ++ [u]; timerQueue := timerQueue e |}).

Definition setSkipButtonTimer (v : option TimerHandle) : Handler unit :=
  fun e => (tt, {| now := now e; pending := pending e; nextHandle := nextHandle e;
                   stateQueue := stateQueue e; timerQueue := timerQueue e ++ [v] |}).

(** [setTimeout(callback, delay)] *)
Definition setTimeout (delay : Z) : Handler TimerHandle :=
  fun e => (nextHandle e,
            {| now := now e;
               pending := pending e ++ [{| handle := nextHandle e; due := now e + delay |}];
               nextHandle := Pos.succ (nextHandle e);
               stateQueue := stateQueue e; timerQueue := timerQueue e |}).

Definition cancel (h : TimerHandle) (ts : list Timer) : list Timer :=
  filter (fun t => negb (Pos.eqb (handle t) h)) ts.

(** [clearTimeout(h)] *)
Definition clearTimeout (h : TimerHandle) : Handler unit :=
  fun e => (tt, {| now := now e; pending := cancel h (pending e); nextHandle := nextHandle e;
                   stateQueue := stateQueue e; timerQueue := timerQueue e |}).

(** [if (timer) clearTimeout(timer)] *)
Definition clearIfSet (v : option TimerHandle) : Handler unit :=
  match v with
  | Some h => clearTimeout h
  | None => ret tt
  end.

End React.

Declare Scope handler_scope.
Delimit Scope handler_scope with handler.
Notation "x <- c ;; k" := (React.bind c (fun x => k))
  (at level 61, c at next level, right associativity) : handler_scope.
Notation "c ;; k" := (React.bind c (fun _ => k))
  (at level 61, right associativity) : handler_scope.

(** ** components/GameContainer.tsx *)
Module GameContainer.
Import React.
Local Open Scope handler_scope.

Definition defaultResult : LevelResult :=
  {| completed := false; skipped := false; timeSpent := 0 |}.

(** The argument of [useState]. *)
Definition initialState : GameContainerState :=
  {| gameState := GameState.idle;
     currentLevel := 1;
     startTime := None;
     totalTime := 0;
     levelResults := Js.fill 5 defaultResult;
     showSkipButton := false |}.

(** The values one render binds: [state] and [skipButtonTimer].  Every
    handler created by that render reads these, whatever has been queued
    since. *)
Record Render := {
  state : GameContainerState;
  skipButtonTimer : option TimerHandle
}.

(** The callback given to [setTimeout]. *)
Definition showSkip : Updater :=
  fun prev =>
    {| gameState := gameState prev; currentLevel := currentLevel prev;
       startTime := startTime prev; totalTime := totalTime prev;
       levelResults := levelResults prev; showSkipButton := true |}.

Definition startGame (r : Render) : Handler unit :=
  now <- Date_now ;;
  setState (fun _ =>
    {| gameState := GameState.playing;
       currentLevel := 1;
       startTime := Some now;
       totalTime := 0;
       levelResults := Js.fill 5 defaultResult;
       showSkipButton := false |}) ;;
  timer <- setTimeout 5000 ;;
  setSkipButtonTimer (Some timer).

(** [endGame] is declared after [handleLevelComplete] in the source; both
    are closures of the same render. *)
Definition endGame (r : Render) : Handler unit :=
  clearIfSet (skipButtonTimer r) ;;
  now <- Date_now ;;
  let finalTime :=
    if Js.truthy (startTime (state r))
    then now - Js.toNumber (startTime (state r)) + totalTime (state r)
    else totalTime (state r) in
  setState (fun prev =>
    {| gameState := GameState.completed; currentLevel := currentLevel prev;
       startTime := startTime prev; totalTime := finalTime;
       levelResults := levelResults prev; showSkipButton := false |}).

Definition handleLevelComplete (r : Render) : Handler unit :=
  now <- Date_now ;;
  let timeSpent :=
    if Js.truthy (startTime (state r))
    then now - Js.toNumber (startTime (state r)) else 0 in
  let newLevelResults :=
    Js.set (levelResults (state r)) (currentLevel (state r) - 1)
      {| completed := true; skipped := false; timeSpent := timeSpent |} in
  if 5 <=? currentLevel (state r) then
    endGame r
  else
    setState (fun prev =>
      {| gameState := gameState prev; currentLevel := currentLevel prev + 1;
         startTime := startTime prev; totalTime := totalTime prev;
         levelResults := newLevelResults; showSkipButton := false |}) ;;
    clearIfSet (skipButtonTimer r) ;;
    timer <- setTimeout 5000 ;;
    setSkipButtonTimer (Some timer).

Definition handleSkip (r : Render) : Handler unit :=
  now <- Date_now ;;
  let timeSpent :=
    if Js.truthy (startTime (state r))
    then now - Js.toNumber (startTime (state r)) else 0 in
  let newLevelResults :=
    Js.set (levelResults (state r)) (currentLevel (state r) - 1)
      {| completed := false; skipped := true; timeSpent := timeSpent |} in
  setState (fun prev =>
    {| gameState := gameState prev; currentLevel := currentLevel prev;
       startTime := startTime prev; totalTime := totalTime prev + 30000;
       levelResults := newLevelResults; showSkipButton := showSkipButton prev |}) ;;
  handleLevelComplete r.

Definition resetGame (r : Render) : Handler unit :=
  clearIfSet (skipButtonTimer r) ;;
  setState (fun _ =>
    {| gameState := GameState.idle;
       currentLevel := 1;
       startTime := None;
       totalTime := 0;
       levelResults := Js.fill 5 defaultResult;
       showSkipButton := false |}).

(** The props of [<Timer />] in the playing view. *)
Definition timerProps (s : GameContainerState) : Timer.TimerProps :=
  {| Timer.startTime := Js.toNumber (startTime s);
     Timer.additionalTime := totalTime s |}.


(** *** The component between two events *)

Record World := {
  mounted : bool;
  render : Render;            (* the values bound by the latest render *)
  timers : list Timer;        (* timeouts not yet fired *)
  fresh : TimerHandle;        (* the handle the next setTimeout returns *)
  clock : Z                   (* time of the latest event *)
}.

Definition initialWorld : World :=
  {| mounted := true;
     render := {| state := initialState; skipButtonTimer := None |};
     timers := [];
     fresh := 1%positive;
     clock := 0 |}.

(** The dependency check of [useEffect(..., [skipButtonTimer])]. *)
Definition sameHandle (a b : option TimerHandle) : bool :=
  match a, b with
  | Some x, Some y => Pos.eqb x y
  | None, None => true
  | _, _ => false
  end.

(** React applies the queued updaters in order and renders again.  When
    [skipButtonTimer] has changed, the cleanup returned by the effect of the
    previous render runs: [if (skipButtonTimer) clearTimeout(skipButtonTimer)]
    with the previous value.  Updates of an unmounted component are dropped. *)
Definition commit (w : World) (e : Env) : World :=
  if mounted w then
    let state' := fold_left (fun s (u : Updater) => u s) (stateQueue e) (state (render w)) in
    let timer' := last (timerQueue e) (skipButtonTimer (render w)) in
    let cleanup :=
      if sameHandle (skipButtonTimer (render w)) timer' then ret tt
      else clearIfSet (skipButtonTimer (render w)) in
    let e' := snd (cleanup e) in
    {| mounted := true;
       render := {| state := state'; skipButtonTimer := timer' |};
       timers := pending e';
       fresh := nextHandle e';
       clock := now e' |}
  else
    {| mounted := false;
       render := render w;
       timers := pending e;
       fresh := nextHandle e;
       clock := now e |}.

(** One handler call, run to completion, then the commit.  The call is taken
    to fit in one reading of the clock: every [Date.now()] in it returns
    [now].  The updaters are applied in the order they were queued; whether
    React applies them together or renders after each one, the handler and
    the handlers it calls read the values of the same render. *)
Definition call (h : Handler unit) (now : Z) (w : World) : World :=
  commit w (snd (h {| now := now; pending := timers w; nextHandle := fresh w;
                      stateQueue := []; timerQueue := [] |})).

(** What can happen to the mounted container: a click on a control that the
    current view shows, the completion signal of the microgame on screen, a
    timeout that fires, the teardown. *)
Inductive Action :=
| Start
| Complete
| Skip
| Restart
| Timeout (h : TimerHandle)
| Unmount.

Record Event := {
  time : Z;
  action : Action
}.

Definition event (t : Z) (a : Action) : Event := {| time := t; action := a |}.

Definition phaseIs (w : World) (g : GameState.t) : bool :=
  mounted w && GameState.eqb (gameState (state (render w))) g.

(** The view decides which handlers can be reached: the Start button is
    rendered when idle, the results screen (Restart) when completed, the
    microgame and [<SkipButton visible={state.showSkipButton} />] when
    playing; [SkipButton] returns [null] unless [visible].  Every handler is
    the one bound by the latest render; the completion signals that a
    microgame sends from a timeout, with the handler of an earlier render,
    are taken in by [Play.advance]. *)
Definition step (w : World) (ev : Event) : option World :=
  if time ev <? clock w then None
  else
    match action ev with
    | Start =>
        if phaseIs w GameState.idle
        then Some (call (startGame (render w)) (time ev) w) else None
    | Complete =>
        if phaseIs w GameState.playing
        then Some (call (handleLevelComplete (render w)) (time ev) w) else None
    | Skip =>
        if phaseIs w GameState.playing && showSkipButton (state (render w))
        then Some (call (handleSkip (render w)) (time ev) w) else None
    | Restart =>
        if phaseIs w GameState.completed
        then Some (call (resetGame (render w)) (time ev) w) else None
    | Timeout h =>
        match find (fun t => Pos.eqb (handle t) h) (timers w) with
        | Some t =>
            if due t <=? time ev
            then Some (call (setState showSkip) (time ev)
                         {| mounted := mounted w; render := render w;
                            timers := cancel h (timers w);
                            fresh := fresh w; clock := clock w |})
            else None
        | None => None
        end
    | Unmount =>
        if mounted w
        then Some {| mounted := false; render := render w;
                     timers := match skipButtonTimer (render w) with
                               | Some h => cancel h (timers w)
                               | None => timers w
                               end;
                     fresh := fresh w; clock := time ev |}
        else None
    end.

Fixpoint run (w : World) (evs : list Event) : option World :=
  match evs with
  | [] => Some w
  | ev :: rest =>
      match step w ev with
      | Some w' => run w' rest
      | None => None
      end
  end.

(** Number of skips since the latest start. *)
Definition countSkip (n : Z) (ev : Event) : Z :=
  match action ev with
  | Start => 0
  | Skip => n + 1
  | _ => n
  end.

Definition skipsInSession (evs : list Event) : Z := fold_left countSkip evs 0.

(** Time at which the level on screen began: the latest start, completion or
    skip. *)
Definition levelStart (t : Z) (ev : Event) : Z :=
  match action ev with
  | Start | Complete | Skip => time ev
  | _ => t
  end.

Definition levelBegan (evs : list Event) : Z := fold_left levelStart evs 0.

(** [state.startTime ? now - state.startTime : 0], the elapsed time every
    handler computes. *)
Definition sinceStart (s : GameContainerState) (now : Z) : Z :=
  if Js.truthy (startTime s) then now - Js.toNumber (startTime s) else 0.

(** What holds between two events of a run from [initialWorld]; [skips] and
    [began] stand for [skipsInSession] and [levelBegan] of the events so far. *)
Record Invariant (w : World) (skips began : Z) : Prop := {
  handle_used :
    forall h, skipButtonTimer (render w) = Some h -> (h < fresh w)%positive;
  timers_current :
    timers w = [] \/
    (mounted w = true /\
     gameState (state (render w)) = GameState.playing /\
     showSkipButton (state (render w)) = false /\
     exists h, skipButtonTimer (render w) = Some h /\
               timers w = [{| handle := h; due := began + 5000 |}]);
  idle_initial :
    gameState (state (render w)) = GameState.idle ->
    state (render w) = initialState;
  playing_level :
    gameState (state (render w)) = GameState.playing ->
    1 <= currentLevel (state (render w)) <= 5;
  playing_results :
    gameState (state (render w)) = GameState.playing ->
    forall i, currentLevel (state (render w)) - 1 <= i < 5 ->
              Js.get (levelResults (state (render w))) i = Some defaultResult;
  playing_start :
    gameState (state (render w)) = GameState.playing ->
    exists t, startTime (state (render w)) = Some t /\ t <= clock w;
  playing_penalty :
    gameState (state (render w)) = GameState.playing ->
    totalTime (state (render w)) = 30000 * skips;
  skips_counted : 0 <= skips
}.

End GameContainer.

(** ** components/ProgressTracker.tsx *)
Module ProgressTracker.

(** [None] is the TypeError of reading a property of [undefined]. *)
Definition getLevelStatus (currentLevel : Z) (levelResults : Js.Array LevelResult)
    (levelIndex : Z) : option string :=
  if levelIndex + 1 <? currentLevel then
    match Js.get levelResults levelIndex with
    | Some result =>
        Some (if completed result then "completed"%string
              else if skipped result then "skipped"%string
              else "pending"%string)
    | None => None
    end
  else if levelIndex + 1 =? currentLevel then Some "current"%string
  else Some "pending"%string.

(** [Array.from({ length: 5 }, (_, index) => getLevelStatus(index))] *)
Definition slots (currentLevel : Z) (levelResults : Js.Array LevelResult)
    : list (option string) :=
  map (getLevelStatus currentLevel levelResults) [0; 1; 2; 3; 4].

End ProgressTracker.

(** ** One mounted microgame and its timeouts

    Every microgame is a [React.FC<MicrogameProps>]: it keeps its own state,
    sets timeouts and calls [props.onComplete].  None of them returns a
    cleanup for its timeouts, so a timeout set before the instance is
    unmounted still fires afterwards. *)
Module Microgame.

(** What one click handler, or one timeout callback, does: the component
    state after its updates, the [setTimeout(callback, delay)] calls it made
    as [(delay, callback)], and how often it called [onComplete]. *)
Record Reaction (S C : Type) := {
  next : S;
  timeouts : list (Z * C);
  completions : nat
}.
Arguments next {S C} _.
Arguments timeouts {S C} _.
Arguments completions {S C} _.

Record Component (S C : Type) := {
  (** state once the mount effect has run, and the timeouts it set *)
  mount : S * list (Z * C);
  (** click on the button of that index; [None] when none is rendered *)
  tap : S -> Z -> option (Reaction S C);
  (** body of a timeout callback *)
  fire : C -> S -> Reaction S C
}.
Arguments mount {S C} _.
Arguments tap {S C} _ _ _.
Arguments fire {S C} _ _ _.

Record Pending (C : Type) := {
  due : Z;
  callback : C
}.
Arguments due {C} _.
Arguments callback {C} _.

Record World (S C : Type) := {
  mounted : bool;
  component : S;
  queue : list (Pending C);
  clock : Z;
  calls : nat                    (* calls of onComplete so far *)
}.
Arguments mounted {S C} _.
Arguments component {S C} _.
Arguments queue {S C} _.
Arguments clock {S C} _.
Arguments calls {S C} _.

Inductive Event :=
| Tap (t : Z) (index : Z)        (* the player clicks a button at time t *)
| Fire (t : Z) (k : nat).        (* the k-th pending timeout fires at time t *)

Section Instance.
Context {S C : Type} (M : Component S C).

Definition schedule (t : Z) (l : list (Z * C)) : list (Pending C) :=
  map (fun dc => {| due := t + fst dc; callback := snd dc |}) l.

Definition mountAt (t : Z) : World S C :=
  {| mounted := true;
     component := fst (mount M);
     queue := schedule t (snd (mount M));
     clock := t;
     calls := 0 |}.

(** The container answers [onComplete] by leaving the level (its handler
    increments [currentLevel], the [key] of the instance, or ends the game),
    so the instance is unmounted by the first call; state updates of an
    unmounted component are dropped. *)
Definition react (w : World S C) (t : Z) (q : list (Pending C)) (r : Reaction S C)
    : World S C :=
  {| mounted := mounted w && Nat.eqb (completions r) 0;
     component := if mounted w then next r else component w;
     queue := q ++ schedule t (timeouts r);
     clock := t;
     calls := (calls w + completions r)%nat |}.

Definition dropNth {A : Type} (k : nat) (l : list A) : list A :=
  firstn k l ++ skipn (Datatypes.S k) l.

Definition step (w : World S C) (ev : Event) : option (World S C) :=
  match ev with
  | Tap t index =>
      if (clock w <=? t) && mounted w then
        match tap M (component w) index with
        | Some r => Some (react w t (queue w) r)
        | None => None
        end
      else None
  | Fire t k =>
      match nth_error (queue w) k with
      | Some p =>
          if (clock w <=? t) && (due p <=? t)
          then Some (react w t (dropNth k (queue w)) (fire M (callback p) (component w)))
          else None
      | None => None
      end
  end.

Fixpoint run (w : World S C) (evs : list Event) : option (World S C) :=
  match evs with
  | [] => Some w
  | ev :: rest =>
      match step w ev with
      | Some w' => run w' rest
      | None => None
      end
  end.

(** Timeouts that fire exactly when due, earliest first, and before any
    later click. *)
Definition punctual (w : World S C) (ev : Event) : bool :=
  match ev with
  | Tap t _ => forallb (fun p => t <=? due p) (queue w)
  | Fire t k =>
      match nth_error (queue w) k with
      | Some p => (t =? due p) && forallb (fun q => due p <=? due q) (queue w)
      | None => false
      end
  end.

Fixpoint onTime (w : World S C) (evs : list Event) : bool :=
  match evs with
  | [] => true
  | ev :: rest =>
      punctual w ev &&
      match step w ev with
      | Some w' => onTime w' rest
      | None => false
      end
  end.

End Instance.
End Microgame.

(** ** components/microgames/DirectionMatch.tsx *)
Module DirectionMatch.

Inductive Direction := up | down | left | right.

Definition Direction_eqb (a b : Direction) : bool :=
  match a, b with
  | up, up | down, down | left, left | right, right => true
  | _, _ => false
  end.

Record ArrowConfig := {
  id : Z;
  direction : Direction;
  rotation : Z;
  isTarget : bool
}.

Record DirectionMatchState := {
  targetDirection : Direction;
  arrows : list ArrowConfig;
  feedback : option Z
}.

(** [DIRECTIONS[direction].rotation] *)
Definition DIRECTIONS_rotation (d : Direction) : Z :=
  match d with
  | up => 0
  | right => 90
  | down => 180
  | left => 270
  end.

Definition ALL_DIRECTIONS : list Direction := [up; down; left; right].

Definition initial : DirectionMatchState :=
  {| targetDirection := up; arrows := []; feedback := None |}.

Fixpoint mapIndexed {A B : Type} (f : A -> Z -> B) (l : list A) (index : Z) : list B :=
  match l with
  | [] => []
  | x :: rest => f x index :: mapIndexed f rest (index + 1)
  end.

(** [generateGame]; its two random draws are the arguments: the target and
    the order in which the shuffle leaves [ALL_DIRECTIONS]. *)
Definition generateGame (targetDirection : Direction) (shuffledDirections : list Direction)
    : DirectionMatchState :=
  {| targetDirection := targetDirection;
     arrows := mapIndexed (fun direction index =>
                 {| id := index;
                    direction := direction;
                    rotation := DIRECTIONS_rotation direction;
                    isTarget := Direction_eqb direction targetDirection |})
                 shuffledDirections 0;
     feedback := None |}.

Inductive Callback :=
| CallOnComplete        (* () => { onComplete(); } *)
| ClearFeedback.        (* () => { setGameState(prev => ({ ...prev, feedback: null })); } *)

Definition withFeedback (s : DirectionMatchState) (f : option Z) : DirectionMatchState :=
  {| targetDirection := targetDirection s; arrows := arrows s; feedback := f |}.

(** [None]: there is no arrow, hence no button, of that index. *)
Definition handleArrowTap (gameState : DirectionMatchState) (index : Z)
    : option (Microgame.Reaction DirectionMatchState Callback) :=
  match feedback gameState with
  | Some _ =>
      Some {| Microgame.next := gameState; Microgame.timeouts := [];
              Microgame.completions := 0 |}
  | None =>
      if index <? 0 then None
      else
        match nth_error (arrows gameState) (Z.to_nat index) with
        | Some arrow =>
            if isTarget arrow then
              Some {| Microgame.next := withFeedback gameState (Some index);
                      Microgame.timeouts := [(500, CallOnComplete)];
                      Microgame.completions := 0 |}
            else
              Some {| Microgame.next := withFeedback gameState (Some index);
                      Microgame.timeouts := [(500, ClearFeedback)];
                      Microgame.completions := 0 |}
        | None => None
        end
  end.

Definition timeout (c : Callback) (prev : DirectionMatchState)
    : Microgame.Reaction DirectionMatchState Callback :=
  match c with
  | CallOnComplete =>
      {| Microgame.next := prev; Microgame.timeouts := []; Microgame.completions := 1 |}
  | ClearFeedback =>
      {| Microgame.next := withFeedback prev None; Microgame.timeouts := [];
         Microgame.completions := 0 |}
  end.

Definition instance (targetDirection : Direction) (shuffledDirections : list Direction)
    : Microgame.Component DirectionMatchState Callback :=
  {| Microgame.mount := (generateGame targetDirection shuffledDirections, []);
     Microgame.tap := handleArrowTap;
     Microgame.fire := timeout |}.

(** The arrow of that index is the target. *)
Definition isTargetAt (s : DirectionMatchState) (index : Z) : bool :=
  (0 <=? index) &&
  match nth_error (arrows s) (Z.to_nat index) with
  | Some arrow => isTarget arrow
  | None => false
  end.

(** The four stages of an instance whose puzzle is [g]: waiting for a tap,
    showing the feedback of a wrong tap, showing the feedback of the right
    tap, done. *)
Inductive Stage (g : DirectionMatchState)
    (w : Microgame.World DirectionMatchState Callback) : Prop :=
| Waiting :
    Microgame.mounted w = true ->
    Microgame.component w = g ->
    Microgame.queue w = [] ->
    Microgame.calls w = 0%nat ->
    Stage g w
| Wrong (index due : Z) :
    Microgame.mounted w = true ->
    Microgame.component w = withFeedback g (Some index) ->
    isTargetAt g index = false ->
    Microgame.queue w = [{| Microgame.due := due; Microgame.callback := ClearFeedback |}] ->
    Microgame.calls w = 0%nat ->
    Stage g w
| Right (index due : Z) :
    Microgame.mounted w = true ->
    Microgame.component w = withFeedback g (Some index) ->
    isTargetAt g index = true ->
    Microgame.queue w = [{| Microgame.due := due; Microgame.callback := CallOnComplete |}] ->
    Microgame.calls w = 0%nat ->
    Stage g w
| Done (index : Z) :
    Microgame.mounted w = false ->
    Microgame.component w = withFeedback g (Some index) ->
    isTargetAt g index = true ->
    Microgame.queue w = [] ->
    Microgame.calls w = 1%nat ->
    Stage g w.

End DirectionMatch.

(** ** components/microgames/ColorMatch.tsx *)
Module ColorMatch.

Record ColorOption := {
  color : string;
  isCorrect : bool
}.

Record ColorMatchState := {
  targetColor : string;
  options : list ColorOption;
  selectedIndex : option Z
}.

Inductive Feedback := none | wrong | correct.

(** The two [useState] cells of the component. *)
Record Cells := {
  gameState : ColorMatchState;
  feedback : Feedback
}.

Definition COLORS : list string :=
  ["#EF4444"; "#3B82F6"; "#10B981"; "#F59E0B";
   "#8B5CF6"; "#EC4899"; "#14B8A6"; "#F97316"]%string.

Definition initial : Cells :=
  {| gameState := {| targetColor := ""%string; options := []; selectedIndex := None |};
     feedback := none |}.

(** [generateGame]; [shuffled] is the order in which the first random sort
    leaves [COLORS] (eight entries, so the indices 0..3 exist) and [arrange]
    is what the second random sort does to the four options. *)
Definition generateGame (shuffled : list string)
    (arrange : list ColorOption -> list ColorOption) : ColorMatchState :=
  let targetColor := nth 0 shuffled ""%string in
  let incorrectColors := firstn 3 (skipn 1 shuffled) in
  let options :=
    arrange
      [ {| color := targetColor; isCorrect := true |};
        {| color := nth 0 incorrectColors ""%string; isCorrect := false |};
        {| color := nth 1 incorrectColors ""%string; isCorrect := false |};
        {| color := nth 2 incorrectColors ""%string; isCorrect := false |} ] in
  {| targetColor := targetColor; options := options; selectedIndex := None |}.

Inductive Callback :=
| CallOnComplete        (* () => { onComplete(); } *)
| ClearWrong.           (* () => { setFeedback('none'); setGameState(prev => ({ ...prev, selectedIndex: null })); } *)

Definition select (s : ColorMatchState) (i : option Z) : ColorMatchState :=
  {| targetColor := targetColor s; options := options s; selectedIndex := i |}.

Definition isNone (f : Feedback) : bool :=
  match f with
  | none => true
  | _ => false
  end.

(** [None]: there is no option, hence no button, of that index. *)
Definition handleOptionTap (c : Cells) (index : Z)
    : option (Microgame.Reaction Cells Callback) :=
  if negb (isNone (feedback c)) then
    Some {| Microgame.next := c; Microgame.timeouts := []; Microgame.completions := 0 |}
  else if index <? 0 then None
  else
    match nth_error (options (gameState c)) (Z.to_nat index) with
    | Some option =>
        if isCorrect option then
          Some {| Microgame.next := {| gameState := select (gameState c) (Some index);
                                       feedback := correct |};
                  Microgame.timeouts := [(300, CallOnComplete)];
                  Microgame.completions := 0 |}
        else
          Some {| Microgame.next := {| gameState := select (gameState c) (Some index);
                                       feedback := wrong |};
                  Microgame.timeouts := [(500, ClearWrong)];
                  Microgame.completions := 0 |}
    | None => None
    end.

Definition timeout (cb : Callback) (prev : Cells) : Microgame.Reaction Cells Callback :=
  match cb with
  | CallOnComplete =>
      {| Microgame.next := prev; Microgame.timeouts := []; Microgame.completions := 1 |}
  | ClearWrong =>
      {| Microgame.next := {| gameState := select (gameState prev) None; feedback := none |};
         Microgame.timeouts := []; Microgame.completions := 0 |}
  end.

Definition instance (shuffled : list string)
    (arrange : list ColorOption -> list ColorOption)
    : Microgame.Component Cells Callback :=
  {| Microgame.mount := ({| gameState := generateGame shuffled arrange; feedback := none |}, []);
     Microgame.tap := handleOptionTap;
     Microgame.fire := timeout |}.

(** The option of that index is the correct one. *)
Definition isCorrectAt (s : ColorMatchState) (index : Z) : bool :=
  (0 <=? index) &&
  match nth_error (options s) (Z.to_nat index) with
  | Some option => isCorrect option
  | None => false
  end.

(** The four stages of an instance whose puzzle is [g]. *)
Inductive Stage (g : ColorMatchState)
    (w : Microgame.World Cells Callback) : Prop :=
| Waiting :
    Microgame.mounted w = true ->
    Microgame.component w = {| gameState := g; feedback := none |} ->
    Microgame.queue w = [] ->
    Microgame.calls w = 0%nat ->
    Stage g w
| Wrong (index due : Z) :
    Microgame.mounted w = true ->
    Microgame.component w = {| gameState := select g (Some index); feedback := wrong |} ->
    isCorrectAt g index = false ->
    Microgame.queue w = [{| Microgame.due := due; Microgame.callback := ClearWrong |}] ->
    Microgame.calls w = 0%nat ->
    Stage g w
| Right (index due : Z) :
    Microgame.mounted w = true ->
    Microgame.component w = {| gameState := select g (Some index); feedback := correct |} ->
    isCorrectAt g index = true ->
    Microgame.queue w = [{| Microgame.due := due; Microgame.callback := CallOnComplete |}] ->
    Microgame.calls w = 0%nat ->
    Stage g w
| Done (index : Z) :
    Microgame.mounted w = false ->
    Microgame.component w = {| gameState := select g (Some index); feedback := correct |} ->
    isCorrectAt g index = true ->
    Microgame.queue w = [] ->
    Microgame.calls w = 1%nat ->
    Stage g w.

End ColorMatch.

(** ** components/microgames/SequenceMemory.tsx *)
Module SequenceMemory.

Inductive Phase := showing | input.

Inductive Mark := correct | wrong.

(** [buttonFeedback]: an object keyed by button; [None] stands for [null]
    and for a missing key, which the component does not tell apart. *)
Definition ButtonFeedback := Z -> option Mark.

Record SequenceMemoryState := {
  sequence : list Z;
  playerSequence : list Z;
  isPlaying : bool;
  currentFlash : option Z;
  phase : Phase;
  buttonFeedback : ButtonFeedback
}.

Definition BUTTONS : list Z := [0; 1; 2; 3].

Definition noFeedback : ButtonFeedback := fun _ => None.

(** [{ ...prev.buttonFeedback, [buttonIndex]: v }] *)
Definition mark (f : ButtonFeedback) (buttonIndex : Z) (v : option Mark) : ButtonFeedback :=
  fun k => if k =? buttonIndex then v else f k.

Definition initial : SequenceMemoryState :=
  {| sequence := []; playerSequence := []; isPlaying := false;
     currentFlash := None; phase := showing; buttonFeedback := noFeedback |}.

(** The timeout callbacks.  [playSequence] is an async function: each
    [await delay(ms)] is a timeout whose callback resumes the function, with
    the [sequence] argument in its closure. *)
Inductive Callback :=
| PlayFrom (sequence : list Z) (i : nat)   (* resume at the loop test with index i *)
| FlashOff (sequence : list Z) (i : nat)   (* resume after delay(400) in iteration i *)
| BeginInput                               (* resume after delay(300) *)
| ClearMark (buttonIndex : Z)              (* feedback of a correct tap, 300 ms *)
| ResetPlayer                              (* after a wrong tap, 500 ms *)
| CallOnComplete.                          (* () => { onComplete(); } *)

Definition isInput (p : Phase) : bool :=
  match p with
  | input => true
  | showing => false
  end.

Definition quiet (s : SequenceMemoryState)
    : Microgame.Reaction SequenceMemoryState Callback :=
  {| Microgame.next := s; Microgame.timeouts := []; Microgame.completions := 0 |}.

Definition handleButtonTap (gameState : SequenceMemoryState) (buttonIndex : Z)
    : Microgame.Reaction SequenceMemoryState Callback :=
  if negb (isInput (phase gameState)) || isPlaying gameState then quiet gameState
  else
    let currentStep := List.length (playerSequence gameState) in
    let expectedButton := nth_error (sequence gameState) currentStep in
    if match expectedButton with
       | Some b => buttonIndex =? b
       | None => false                     (* buttonIndex === undefined *)
       end
    then
      let newPlayerSequence := playerSequence gameState ++ [buttonIndex] in
      {| Microgame.next :=
           {| sequence := sequence gameState;
              playerSequence := newPlayerSequence;
              isPlaying := isPlaying gameState;
              currentFlash := currentFlash gameState;
              phase := phase gameState;
              buttonFeedback := mark (buttonFeedback gameState) buttonIndex (Some correct) |};
         Microgame.timeouts :=
           (300, ClearMark buttonIndex) ::
           (if Nat.eqb (List.length newPlayerSequence) (List.length (sequence gameState))
            then [(500, CallOnComplete)] else []);
         Microgame.completions := 0 |}
    else
      {| Microgame.next :=
           {| sequence := sequence gameState;
              playerSequence := playerSequence gameState;
              isPlaying := isPlaying gameState;
              currentFlash := currentFlash gameState;
              phase := phase gameState;
              buttonFeedback := mark (buttonFeedback gameState) buttonIndex (Some wrong) |};
         Microgame.timeouts := [(500, ResetPlayer)];
         Microgame.completions := 0 |}.

(** A button is rendered for each entry of [BUTTONS]. *)
Definition tap (gameState : SequenceMemoryState) (buttonIndex : Z)
    : option (Microgame.Reaction SequenceMemoryState Callback) :=
  if existsb (Z.eqb buttonIndex) BUTTONS
  then Some (handleButtonTap gameState buttonIndex) else None.

Definition timeout (c : Callback) (prev : SequenceMemoryState)
    : Microgame.Reaction SequenceMemoryState Callback :=
  match c with
  | PlayFrom seq i =>
      match nth_error seq i with
      | Some buttonIndex =>
          {| Microgame.next :=
               {| sequence := sequence prev; playerSequence := playerSequence prev;
                  isPlaying := isPlaying prev; currentFlash := Some buttonIndex;
                  phase := phase prev; buttonFeedback := buttonFeedback prev |};
             Microgame.timeouts := [(400, FlashOff seq i)];
             Microgame.completions := 0 |}
      | None =>
          {| Microgame.next := prev;
             Microgame.timeouts := [(300, BeginInput)];
             Microgame.completions := 0 |}
      end
  | FlashOff seq i =>
      {| Microgame.next :=
           {| sequence := sequence prev; playerSequence := playerSequence prev;
              isPlaying := isPlaying prev; currentFlash := None;
              phase := phase prev; buttonFeedback := buttonFeedback prev |};
         Microgame.timeouts := [(200, PlayFrom seq (Datatypes.S i))];
         Microgame.completions := 0 |}
  | BeginInput =>
      {| Microgame.next :=
           {| sequence := sequence prev; playerSequence := [];
              isPlaying := false; currentFlash := None;
              phase := input; buttonFeedback := buttonFeedback prev |};
         Microgame.timeouts := [];
         Microgame.completions := 0 |}
  | ClearMark buttonIndex =>
      {| Microgame.next :=
           {| sequence := sequence prev; playerSequence := playerSequence prev;
              isPlaying := isPlaying prev; currentFlash := currentFlash prev;
              phase := phase prev;
              buttonFeedback := mark (buttonFeedback prev) buttonIndex None |};
         Microgame.timeouts := [];
         Microgame.completions := 0 |}
  | ResetPlayer =>
      {| Microgame.next :=
           {| sequence := sequence prev; playerSequence := [];
              isPlaying := isPlaying prev; currentFlash := currentFlash prev;
              phase := phase prev; buttonFeedback := noFeedback |};
         Microgame.timeouts := [];
         Microgame.completions := 0 |}
  | CallOnComplete =>
      {| Microgame.next := prev; Microgame.timeouts := []; Microgame.completions := 1 |}
  end.

(** The mount effect: [generateSequence(4)] is the argument [sequence];
    [setGameState(prev => ({ ...prev, sequence }))], then [playSequence]
    up to its first [await delay(500)]. *)
Definition instance (sequence : list Z)
    : Microgame.Component SequenceMemoryState Callback :=
  {| Microgame.mount :=
       ({| sequence := sequence; playerSequence := []; isPlaying := true;
           currentFlash := None; phase := showing; buttonFeedback := noFeedback |},
        [(500, PlayFrom sequence 0)]);
     Microgame.tap := tap;
     Microgame.fire := timeout |}.

End SequenceMemory.

(** ** components/ResultsScreen.tsx *)
Module ResultsScreen.

(** [n.toString()] for an integer [n]. *)
Definition toString (n : Z) : string := NilZero.string_of_int (Z.to_int n).

(** [s.padStart(targetLength, pad)] for a pad string of one character; a
    string that is long enough is returned as it is. *)
Definition padStart (s : string) (targetLength : nat) (pad : ascii) : string :=
  String.append
    (string_of_list_ascii (repeat pad (targetLength - String.length s))) s.

(** [formatTime]; the same function is declared in [Timer.tsx].
    [Math.floor] of a quotient is [/], and [%] takes the sign of the
    dividend, as [Z.rem] does. *)
Definition formatTime (milliseconds : Z) : string :=
  let totalSeconds := milliseconds / 1000 in
  let minutes := totalSeconds / 60 in
  let seconds := Z.rem totalSeconds 60 in
  let ms := Z.rem milliseconds 1000 / 10 in
  String.append (padStart (toString minutes) 2 "0")
    (String ":" (String.append (padStart (toString seconds) 2 "0")
       (String "." (padStart (toString ms) 2 "0")))).

(** The elements of an array without holes; [filter] and [map] call their
    callback on them in order.  [None]: an entry is missing, and the
    callbacks below would read a property of [undefined]. *)
Fixpoint elements {A : Type} (a : Js.Array A) : option (list A) :=
  match a with
  | [] => Some []
  | Some x :: rest =>
      match elements rest with
      | Some l => Some (x :: l)
      | None => None
      end
  | None :: _ => None
  end.

(** [levelResults.filter((result) => result.completed).length] *)
Definition completedLevels (levelResults : Js.Array LevelResult) : option Z :=
  match elements levelResults with
  | Some l => Some (Z.of_nat (List.length (filter completed l)))
  | None => None
  end.

(** [levelResults.filter((result) => result.skipped).length] *)
Definition skippedLevels (levelResults : Js.Array LevelResult) : option Z :=
  match elements levelResults with
  | Some l => Some (Z.of_nat (List.length (filter skipped l)))
  | None => None
  end.

(** [skippedLevels * 30000] *)
Definition totalPenalties (levelResults : Js.Array LevelResult) : option Z :=
  match skippedLevels levelResults with
  | Some n => Some (n * 30000)
  | None => None
  end.

(** The text of one line of the level breakdown. *)
Definition outcomeText (result : LevelResult) : string :=
  if completed result then "✓ Completed"%string
  else if skipped result then "⏭ Skipped"%string
  else "○ Not attempted"%string.

(** The border colour of one line of the level breakdown. *)
Definition outcomeColor (result : LevelResult) : string :=
  if completed result then "#4CAF50"%string
  else if skipped result then "#FF9800"%string
  else "#E0E0E0"%string.

(** [levelResults.map((result, index) => ...)]: the lines of the breakdown. *)
Definition breakdown (levelResults : Js.Array LevelResult) : option (list string) :=
  match elements levelResults with
  | Some l => Some (map outcomeText l)
  | None => None
  end.

End ResultsScreen.

(** ** GameContainer.tsx: the microgame on screen *)
Module GameView.

(** The two components the container imports. *)
Inductive Game := ColorMatch | SequenceMemory.

Definition games : list Game :=
  [ColorMatch; SequenceMemory; ColorMatch; SequenceMemory; ColorMatch].

(** [<CurrentGame key={state.currentLevel} onComplete={handleLevelComplete}
    level={state.currentLevel} />] *)
Record Element := {
  type : Game;
  key : Z;
  level : Z
}.

(** [renderCurrentMicrogame]; [None]: [games[state.currentLevel - 1]] is
    [undefined] and React rejects the element. *)
Definition renderCurrentMicrogame (s : GameContainerState) : option Element :=
  if currentLevel s - 1 <? 0 then None
  else
    match nth_error games (Z.to_nat (currentLevel s - 1)) with
    | Some CurrentGame =>
        Some {| type := CurrentGame; key := currentLevel s; level := currentLevel s |}
    | None => None
    end.

End GameView.

(** ** When the skip button can be on screen *)
Module Session.
Import React GameContainer.

(** [began] stands for [levelBegan] of the events so far. *)
Record Recorded (w : World) (began : Z) : Prop := {
  shown_after_delay :
    gameState (state (render w)) = GameState.playing ->
    showSkipButton (state (render w)) = true ->
    began + 5000 <= clock w
}.

End Session.

(** ** The container and the microgame on screen

    [GameContainer.step] hands every event to a handler of the latest
    render.  The microgames do not: ColorMatch and SequenceMemory call
    [onComplete] from a timeout set by the solving tap, and [onComplete] is
    the [handleLevelComplete] of the container render of that tap.  No
    microgame keeps the handle of that timeout and none clears it when it
    unmounts, so the call is made whatever the container has done since. *)
Module Play.
Import React GameContainer.

(** A pending [setTimeout(() => { onComplete(); }, delay)] of a microgame. *)
Record Signal := {
  arrival : Z;
  closure : Render            (* the render whose [handleLevelComplete] it calls *)
}.

Record Stage := {
  container : World;
  signals : list Signal       (* oldest first *)
}.

Definition initialStage : Stage := {| container := initialWorld; signals := [] |}.

(** The delay between the solving tap and [onComplete]: 300 ms in
    [handleOptionTap] of ColorMatch, 500 ms in [handleButtonTap] of
    SequenceMemory. *)
Definition delay (g : GameView.Game) : Z :=
  match g with
  | GameView.ColorMatch => 300
  | GameView.SequenceMemory => 500
  end.

(** What can happen: an action of the container, as [step] takes it
    ([Complete] is a microgame that calls [onComplete] in its click handler,
    as the placeholder ColorMatch does); the solving tap in the microgame on
    screen; a pending signal that fires.  The model does not limit how
    often a microgame is solved: SequenceMemory can set its timeout more
    than once. *)
Inductive Move :=
| Container (a : Action)
| Solve
| Arrive (k : nat).

Record Moment := {
  instant : Z;
  move : Move
}.

Definition moment (t : Z) (m : Move) : Moment := {| instant := t; move := m |}.

(** The microgame of the playing view; [None]: the container is not
    playing, or [renderCurrentMicrogame] has no component to render. *)
Definition onScreen (w : World) : option GameView.Element :=
  if phaseIs w GameState.playing
  then GameView.renderCurrentMicrogame (state (render w)) else None.

Definition advance (f : Stage) (ev : Moment) : option Stage :=
  match move ev with
  | Container a =>
      match step (container f) (event (instant ev) a) with
      | Some w => Some {| container := w; signals := signals f |}
      | None => None
      end
  | Solve =>
      if instant ev <? clock (container f) then None
      else
        match onScreen (container f) with
        | Some element =>
            Some {| container :=
                      {| mounted := mounted (container f);
                         render := render (container f);
                         timers := timers (container f);
                         fresh := fresh (container f);
                         clock := instant ev |};
                    signals :=
                      signals f
                      ++ [{| arrival := instant ev + delay (GameView.type element);
                             closure := render (container f) |}] |}
        | None => None
        end
  | Arrive k =>
      match nth_error (signals f) k with
      | Some signal =>
          if (instant ev <? clock (container f)) || (instant ev <? arrival signal)
          then None
          else
            Some {| container :=
                      call (handleLevelComplete (closure signal)) (instant ev)
                        (container f);
                    signals := Microgame.dropNth k (signals f) |}
      | None => None
      end
  end.

Fixpoint play (f : Stage) (evs : list Moment) : option Stage :=
  match evs with
  | [] => Some f
  | ev :: rest =>
      match advance f ev with
      | Some f' => play f' rest
      | None => None
      end
  end.

(** The render whose [handleLevelComplete] or [handleSkip] a moment calls:
    the latest one for a click, the one of the solving tap for a signal. *)
Definition handler (f : Stage) (m : Move) : option Render :=
  match m with
  | Container Complete | Container Skip => Some (render (container f))
  | Arrive k => option_map closure (nth_error (signals f) k)
  | _ => None
  end.

(** An outcome [handleLevelComplete] leaves in a state that goes on. *)
Definition unskipped (r : LevelResult) : Prop :=
  r = defaultResult \/
  exists t, r = {| completed := true; skipped := false; timeSpent := t |}.

(** Five outcomes, the fifth as at the start. *)
Definition ongoing (a : Js.Array LevelResult) : Prop :=
  exists rs : list LevelResult,
    List.length rs = 4%nat /\ Forall unskipped rs /\
    a = map Some rs ++ [Some defaultResult].

(** What holds between two moments of a run from [initialStage].  The
    outcomes are described as long as the index has not passed 5 in a
    finished game: from there on a skip writes behind the fifth outcome. *)
Record Sound (f : Stage) : Prop := {
  level_positive : 1 <= currentLevel (state (render (container f)));
  outcomes :
    gameState (state (render (container f))) <> GameState.completed \/
    currentLevel (state (render (container f))) <= 5 ->
    exists (rs : list LevelResult) (last : LevelResult),
      List.length rs = 4%nat /\ Forall unskipped rs /\
      levelResults (state (render (container f))) = map Some rs ++ [Some last] /\
      (last = defaultResult \/
       (gameState (state (render (container f))) = GameState.completed /\
        exists t, last = {| completed := false; skipped := true; timeSpent := t |}));
  closures :
    forall signal, In signal (signals f) ->
      1 <= currentLevel (state (closure signal)) <= 5 /\
      ongoing (levelResults (state (closure signal)))
}.

End Play.

(** ** components/microgames/OddOneOut.tsx *)
Module OddOneOut.

Module Config.
Record t := {
  shape : string;
  color : string;
  size : Z;
  rotation : Z
}.
End Config.

Record ShapeSet := {
  normal : Config.t;
  odd : Config.t
}.

Record GridItem := {
  id : Z;
  shape : string;
  color : string;
  size : Z;
  rotation : Z;
  isOdd : bool
}.

Record OddOneOutState := {
  items : list GridItem;
  oddItemIndex : Z;
  feedback : option Z
}.

Definition SHAPE_SETS : list ShapeSet :=
  [ {| normal := {| Config.shape := "circle"; Config.color := "#3B82F6";
                    Config.size := 60; Config.rotation := 0 |};
       odd := {| Config.shape := "circle"; Config.color := "#EF4444";
                 Config.size := 60; Config.rotation := 0 |} |};
    {| normal := {| Config.shape := "square"; Config.color := "#10B981";
                    Config.size := 60; Config.rotation := 0 |};
       odd := {| Config.shape := "circle"; Config.color := "#10B981";
                 Config.size := 60; Config.rotation := 0 |} |};
    {| normal := {| Config.shape := "triangle"; Config.color := "#F59E0B";
                    Config.size := 60; Config.rotation := 0 |};
       odd := {| Config.shape := "triangle"; Config.color := "#F59E0B";
                 Config.size := 60; Config.rotation := 180 |} |};
    {| normal := {| Config.shape := "star"; Config.color := "#8B5CF6";
                    Config.size := 60; Config.rotation := 0 |};
       odd := {| Config.shape := "star"; Config.color := "#8B5CF6";
                 Config.size := 80; Config.rotation := 0 |} |} ]%string.

Definition initial : OddOneOutState :=
  {| items := []; oddItemIndex := 0; feedback := None |}.

(** [generateGame]; its two random draws are the arguments: the set taken
    from [SHAPE_SETS] and the position of the odd item. *)
Definition generateGame (set : ShapeSet) (oddItemIndex : Z) : OddOneOutState :=
  {| items :=
       map (fun index =>
              let config := if index =? oddItemIndex then odd set else normal set in
              {| id := index;
                 shape := Config.shape config;
                 color := Config.color config;
                 size := Config.size config;
                 rotation := Config.rotation config;
                 isOdd := index =? oddItemIndex |})
           [0; 1; 2; 3; 4; 5; 6; 7];
     oddItemIndex := oddItemIndex;
     feedback := None |}.

Inductive Callback :=
| CallOnComplete        (* () => { onComplete(); } *)
| ClearFeedback.        (* () => { setGameState(prev => ({ ...prev, feedback: null })); } *)

Definition withFeedback (s : OddOneOutState) (f : option Z) : OddOneOutState :=
  {| items := items s; oddItemIndex := oddItemIndex s; feedback := f |}.

(** [None]: there is no item, hence no button, of that index. *)
Definition handleItemTap (gameState : OddOneOutState) (index : Z)
    : option (Microgame.Reaction OddOneOutState Callback) :=
  match feedback gameState with
  | Some _ =>
      Some {| Microgame.next := gameState; Microgame.timeouts := [];
              Microgame.completions := 0 |}
  | None =>
      if index <? 0 then None
      else
        match nth_error (items gameState) (Z.to_nat index) with
        | Some item =>
            Some {| Microgame.next := withFeedback gameState (Some index);
                    Microgame.timeouts :=
                      if isOdd item then [(500, CallOnComplete)]
                      else [(500, ClearFeedback)];
                    Microgame.completions := 0 |}
        | None => None
        end
  end.

Definition timeout (c : Callback) (prev : OddOneOutState)
    : Microgame.Reaction OddOneOutState Callback :=
  match c with
  | CallOnComplete =>
      {| Microgame.next := prev; Microgame.timeouts := []; Microgame.completions := 1 |}
  | ClearFeedback =>
      {| Microgame.next := withFeedback prev None; Microgame.timeouts := [];
         Microgame.completions := 0 |}
  end.

Definition instance (set : ShapeSet) (oddItemIndex : Z)
    : Microgame.Component OddOneOutState Callback :=
  {| Microgame.mount := (generateGame set oddItemIndex, []);
     Microgame.tap := handleItemTap;
     Microgame.fire := timeout |}.

(** What the player sees of an item: the props of [renderShape]. *)
Definition look (item : GridItem) : string * string * Z * Z :=
  (shape item, color item, size item, rotation item).

(** The item of that index is the odd one. *)
Definition isOddAt (s : OddOneOutState) (index : Z) : bool :=
  (0 <=? index) &&
  match nth_error (items s) (Z.to_nat index) with
  | Some item => isOdd item
  | None => false
  end.

(** The four stages of an instance whose puzzle is [g]. *)
Inductive Stage (g : OddOneOutState)
    (w : Microgame.World OddOneOutState Callback) : Prop :=
| Waiting :
    Microgame.mounted w = true ->
    Microgame.component w = g ->
    Microgame.queue w = [] ->
    Microgame.calls w = 0%nat ->
    Stage g w
| Wrong (index due : Z) :
    Microgame.mounted w = true ->
    Microgame.component w = withFeedback g (Some index) ->
    isOddAt g index = false ->
    Microgame.queue w = [{| Microgame.due := due; Microgame.callback := ClearFeedback |}] ->
    Microgame.calls w = 0%nat ->
    Stage g w
| Right (index due : Z) :
    Microgame.mounted w = true ->
    Microgame.component w = withFeedback g (Some index) ->
    isOddAt g index = true ->
    Microgame.queue w = [{| Microgame.due := due; Microgame.callback := CallOnComplete |}] ->
    Microgame.calls w = 0%nat ->
    Stage g w
| Done (index : Z) :
    Microgame.mounted w = false ->
    Microgame.component w = withFeedback g (Some index) ->
    isOddAt g index = true ->
    Microgame.queue w = [] ->
    Microgame.calls w = 1%nat ->
    Stage g w.

End OddOneOut.

(** ** components/microgames/SpeedTap.tsx *)
Module SpeedTap.

Record ButtonConfig := {
  id : Z;
  color : string;
  label : string;
  isTarget : bool
}.

Record SpeedTapState := {
  buttons : list ButtonConfig;
  targetIndex : Z;
  tapCount : Z;
  requiredTaps : Z;
  wrongTapFeedback : option Z;
  correctTapFeedback : bool
}.

Definition BUTTON_COLORS : list (string * string) :=
  [("#EF4444", "Red"); ("#3B82F6", "Blue"); ("#10B981", "Green");
   ("#F59E0B", "Orange")]%string.

Definition initial : SpeedTapState :=
  {| buttons := []; targetIndex := 0; tapCount := 0; requiredTaps := 10;
     wrongTapFeedback := None; correctTapFeedback := false |}.

Fixpoint mapIndexed {A B : Type} (f : A -> Z -> B) (l : list A) (index : Z) : list B :=
  match l with
  | [] => []
  | x :: rest => f x index :: mapIndexed f rest (index + 1)
  end.

(** [prev.buttons.map((btn, i) => ({ ...btn, isTarget: i === newTargetIndex }))] *)
Definition retarget (buttons : list ButtonConfig) (newTargetIndex : Z) : list ButtonConfig :=
  mapIndexed (fun btn i =>
                {| id := id btn; color := color btn; label := label btn;
                   isTarget := i =? newTargetIndex |})
             buttons 0.

(** [buttons[targetIndex].isTarget = true] on the fresh buttons; the index
    is [Math.floor(Math.random() * 4)], one of 0..3. *)
Fixpoint markTarget (buttons : list ButtonConfig) (n : nat) : list ButtonConfig :=
  match buttons, n with
  | [], _ => []
  | b :: rest, O =>
      {| id := id b; color := color b; label := label b; isTarget := true |} :: rest
  | b :: rest, S n' => b :: markTarget rest n'
  end.

(** [generateGame]; its random draw is the argument. *)
Definition generateGame (targetIndex : Z) : SpeedTapState :=
  let buttons :=
    mapIndexed (fun config index =>
                  {| id := index; color := fst config; label := snd config;
                     isTarget := false |})
               BUTTON_COLORS 0 in
  {| buttons := markTarget buttons (Z.to_nat targetIndex);
     targetIndex := targetIndex;
     tapCount := 0;
     requiredTaps := 15;
     wrongTapFeedback := None;
     correctTapFeedback := false |}.

(** [selectNewTarget]: draws until the draw differs from the current target.
    [draws] are the values [Math.floor(Math.random() * 4)] is going to
    return; the result comes with the draws that are left.  [None]: the
    loop has used up every draw given and is still running. *)
Fixpoint selectNewTarget (draws : list Z) (currentTargetIndex : Z) : option (Z * list Z) :=
  match draws with
  | [] => None
  | newTarget :: rest =>
      if newTarget =? currentTargetIndex then selectNewTarget rest currentTargetIndex
      else Some (newTarget, rest)
  end.

(** The state of the component and the draws to come. *)
Record Cells := {
  gameState : SpeedTapState;
  random : list Z
}.

Inductive Callback :=
| ClearCorrect          (* () => { setGameState(prev => ({ ...prev, correctTapFeedback: false })); } *)
| CallOnComplete        (* () => { onComplete(); } *)
| ClearWrong.           (* () => { setGameState(prev => ({ ...prev, wrongTapFeedback: null })); } *)

(** [None]: there is no button of that index, or the draws ran out. *)
Definition handleButtonTap (c : Cells) (index : Z)
    : option (Microgame.Reaction Cells Callback) :=
  if index <? 0 then None
  else
    match nth_error (buttons (gameState c)) (Z.to_nat index) with
    | None => None
    | Some button =>
        if isTarget button then
          let newCount := tapCount (gameState c) + 1 in
          let shouldChangeTarget :=
            (Z.rem newCount 3 =? 0) && (newCount <? requiredTaps (gameState c)) in
          match (if shouldChangeTarget
                 then selectNewTarget (random c) (targetIndex (gameState c))
                 else Some (targetIndex (gameState c), random c)) with
          | None => None
          | Some (newTargetIndex, rest) =>
              Some {| Microgame.next :=
                        {| gameState :=
                             {| buttons := retarget (buttons (gameState c)) newTargetIndex;
                                targetIndex := newTargetIndex;
                                tapCount := newCount;
                                requiredTaps := requiredTaps (gameState c);
                                wrongTapFeedback := wrongTapFeedback (gameState c);
                                correctTapFeedback := true |};
                           random := rest |};
                      Microgame.timeouts :=
                        (150, ClearCorrect) ::
                        (if requiredTaps (gameState c) <=? newCount
                         then [(200, CallOnComplete)] else []);
                      Microgame.completions := 0 |}
          end
        else
          Some {| Microgame.next :=
                    {| gameState :=
                         {| buttons := buttons (gameState c);
                            targetIndex := targetIndex (gameState c);
                            tapCount := tapCount (gameState c);
                            requiredTaps := requiredTaps (gameState c);
                            wrongTapFeedback := Some index;
                            correctTapFeedback := correctTapFeedback (gameState c) |};
                       random := random c |};
                  Microgame.timeouts := [(300, ClearWrong)];
                  Microgame.completions := 0 |}
    end.

Definition timeout (cb : Callback) (prev : Cells) : Microgame.Reaction Cells Callback :=
  match cb with
  | ClearCorrect =>
      {| Microgame.next :=
           {| gameState :=
                {| buttons := buttons (gameState prev);
                   targetIndex := targetIndex (gameState prev);
                   tapCount := tapCount (gameState prev);
                   requiredTaps := requiredTaps (gameState prev);
                   wrongTapFeedback := wrongTapFeedback (gameState prev);
                   correctTapFeedback := false |};
              random := random prev |};
         Microgame.timeouts := []; Microgame.completions := 0 |}
  | CallOnComplete =>
      {| Microgame.next := prev; Microgame.timeouts := []; Microgame.completions := 1 |}
  | ClearWrong =>
      {| Microgame.next :=
           {| gameState :=
                {| buttons := buttons (gameState prev);
                   targetIndex := targetIndex (gameState prev);
                   tapCount := tapCount (gameState prev);
                   requiredTaps := requiredTaps (gameState prev);
                   wrongTapFeedback := None;
                   correctTapFeedback := correctTapFeedback (gameState prev) |};
              random := random prev |};
         Microgame.timeouts := []; Microgame.completions := 0 |}
  end.

(** An instance: the first draw is the target of [generateGame], the others
    are left for [selectNewTarget]. *)
Definition instance (targetIndex : Z) (draws : list Z)
    : Microgame.Component Cells Callback :=
  {| Microgame.mount := ({| gameState := generateGame targetIndex; random := draws |}, []);
     Microgame.tap := handleButtonTap;
     Microgame.fire := timeout |}.

Definition isCompletion (p : Microgame.Pending Callback) : bool :=
  match Microgame.callback p with
  | CallOnComplete => true
  | _ => false
  end.

(** Calls of [onComplete] that are set and have not fired. *)
Definition pendingCompletions (q : list (Microgame.Pending Callback)) : nat :=
  List.length (filter isCompletion q).

(** The four buttons when the target is [targetIndex]. *)
Definition board (targetIndex : Z) : list ButtonConfig :=
  mapIndexed (fun config index =>
                {| id := index; color := fst config; label := snd config;
                   isTarget := index =? targetIndex |})
             BUTTON_COLORS 0.

(** What every state of an instance satisfies. *)
Record Sound (w : Microgame.World Cells Callback) : Prop := {
  one_target :
    0 <= targetIndex (gameState (Microgame.component w)) < 4 /\
    buttons (gameState (Microgame.component w))
      = board (targetIndex (gameState (Microgame.component w)));
  fifteen : requiredTaps (gameState (Microgame.component w)) = 15;
  draws_valid : Forall (fun d => 0 <= d < 4) (random (Microgame.component w));
  counted : 0 <= tapCount (gameState (Microgame.component w));
  completions_counted :
    Z.of_nat (Microgame.calls w + pendingCompletions (Microgame.queue w))
    = Z.max 0 (tapCount (gameState (Microgame.component w)) - 14);
  taps_while_mounted :
    Microgame.mounted w = false -> (1 <= Microgame.calls w)%nat
}.

End SpeedTap.

(** ** SequenceMemory: the demonstration and the player's progress *)
Module SequenceMemoryRun.
Import SequenceMemory.

(** The timeouts of [playSequence] when nothing else happens: [k] flashes
    are left and the next timeout is due at [t]. *)
Fixpoint flashes (t : Z) (k : nat) : list Microgame.Event :=
  match k with
  | O => [Microgame.Fire t 0; Microgame.Fire (t + 300) 0]
  | S k' => Microgame.Fire t 0 :: Microgame.Fire (t + 400) 0 :: flashes (t + 600) k'
  end.

(** The demonstration of a sequence of [n] buttons, mounted at [t0]. *)
Definition demonstration (t0 : Z) (n : nat) : list Microgame.Event :=
  flashes (t0 + 500) n.

Definition isCompletion (p : Microgame.Pending Callback) : bool :=
  match Microgame.callback p with
  | CallOnComplete => true
  | _ => false
  end.

(** What every state of an instance with the sequence [s] satisfies. *)
Record Sound (s : list Z) (w : Microgame.World SequenceMemoryState Callback) : Prop := {
  same_sequence : sequence (Microgame.component w) = s;
  progress : exists rest, s = playerSequence (Microgame.component w) ++ rest;
  showing_quiet :
    phase (Microgame.component w) = showing ->
    playerSequence (Microgame.component w) = [] /\
    Microgame.calls w = 0%nat /\
    Microgame.mounted w = true /\
    forall p, In p (Microgame.queue w) ->
              match Microgame.callback p with
              | PlayFrom _ _ | FlashOff _ _ | BeginInput => True
              | _ => False
              end
}.

End SequenceMemoryRun.

(** * The container: what each transition does *)
Module ContainerFacts.
Import React GameContainer.

(** ** Arrays *)

Lemma read_store_same {A : Type} (a : Js.Array A) (n : nat) (v : A) :
  nth_error (Js.store a n v) n = Some (Some v).
Proof.
  revert a. induction n as [|n IH]; intros [|x a]; cbn; auto.
  rewrite nth_error_app2 by (rewrite repeat_length; lia).
  rewrite repeat_length, Nat.sub_diag. reflexivity.
Qed.

Lemma read_repeat_none {A : Type} (n m : nat) :
  match nth_error (repeat (@None A) n) m with
  | Some x => x
  | None => None
  end = None.
Proof.
  revert m. induction n as [|n IH]; intros [|m]; cbn; auto.
Qed.

Lemma read_store_other {A : Type} (a : Js.Array A) (n m : nat) (v : A) :
  n <> m ->
  match nth_error (Js.store a n v) m with
  | Some x => x
  | None => None
  end =
  match nth_error a m with
  | Some x => x
  | None => None
  end.
Proof.
  revert a m. induction n as [|n IH]; intros [|x a] [|m] Hnm; cbn; try congruence; auto.
  - destruct m; reflexivity.
  - destruct (Nat.lt_ge_cases m n) as [Hlt | Hge].
    + rewrite nth_error_app1 by (rewrite repeat_length; lia).
      apply read_repeat_none.
    + rewrite nth_error_app2 by (rewrite repeat_length; lia).
      rewrite repeat_length.
      destruct (m - n)%nat as [|[|k]] eqn:E; cbn; try reflexivity. lia.
Qed.

Lemma get_set_same {A : Type} (a : Js.Array A) (i : Z) (v : A) :
  0 <= i -> Js.get (Js.set a i v) i = Some v.
Proof.
  intros Hi. unfold Js.get, Js.set.
  destruct (Z.ltb_spec i 0); [lia|]. now rewrite read_store_same.
Qed.

Lemma get_set_other {A : Type} (a : Js.Array A) (i j : Z) (v : A) :
  i <> j -> Js.get (Js.set a i v) j = Js.get a j.
Proof.
  intros Hij. unfold Js.get, Js.set.
  destruct (Z.ltb_spec j 0); [reflexivity|].
  destruct (Z.ltb_spec i 0); [reflexivity|].
  apply read_store_other. lia.
Qed.

Lemma get_fill (i : Z) :
  0 <= i < 5 -> Js.get (Js.fill 5 defaultResult) i = Some defaultResult.
Proof.
  intros Hi.
  assert (i = 0 \/ i = 1 \/ i = 2 \/ i = 3 \/ i = 4) as Hc by lia.
  destruct Hc as [-> | [-> | [-> | [-> | ->]]]]; reflexivity.
Qed.

(** ** Timers *)

Lemma cancel_only (h : TimerHandle) (d : Z) :
  cancel h [{| handle := h; due := d |}] = [].
Proof. unfold cancel. cbn. now rewrite Pos.eqb_refl. Qed.

Lemma cancel_other (h k : TimerHandle) (d : Z) :
  k <> h -> cancel h [{| handle := k; due := d |}] = [{| handle := k; due := d |}].
Proof.
  intros Hk. unfold cancel. cbn.
  destruct (Pos.eqb_spec k h); [contradiction | reflexivity].
Qed.


(** ** One transition from a world that satisfies the invariant *)

Ltac open_world w :=
  destruct w as [m [s t] ts f c];
  cbn [mounted render state skipButtonTimer timers fresh clock] in *.

Ltac in_time H :=
  unfold step in H; cbn [time action event] in H;
  match type of H with
  | (if ?b then None else _) = Some _ => destruct b eqn:?; [discriminate H|]
  end.

Lemma phaseIs_true (w : World) (g : GameState.t) :
  phaseIs w g = true -> mounted w = true /\ gameState (state (render w)) = g.
Proof.
  unfold phaseIs. intros H. apply andb_prop in H as [Hm Hg]. split; [exact Hm|].
  destruct (gameState (state (render w))), g; cbn in Hg; congruence.
Qed.

Lemma step_start (w w' : World) (now n b : Z) :
  Invariant w n b ->
  step w (event now Start) = Some w' ->
  gameState (state (render w)) = GameState.idle /\
  w' = {| mounted := true;
          render := {| state := {| gameState := GameState.playing;
                                   currentLevel := 1;
                                   startTime := Some now;
                                   totalTime := 0;
                                   levelResults := Js.fill 5 defaultResult;
                                   showSkipButton := false |};
                       skipButtonTimer := Some (fresh w) |};
          timers := [{| handle := fresh w; due := now + 5000 |}];
          fresh := Pos.succ (fresh w);
          clock := now |}.
Proof.
  intros [Hh Ht _ _ _ _ _ _] H. in_time H.
  destruct (phaseIs w GameState.idle) eqn:Hp; [|discriminate H].
  apply phaseIs_true in Hp as [Hm Hg]. split; [exact Hg|].
  injection H as <-. open_world w. subst m.
  destruct Ht as [-> | (_ & Hplay & _)]; [|congruence].
  unfold call, startGame. cbn.
  destruct t as [h|]; cbn; [|reflexivity].
  specialize (Hh h eq_refl).
  destruct (Pos.eqb_spec h f) as [->|Hne]; [lia|]. cbn.
  destruct (Pos.eqb_spec f h) as [->|Hne']; [lia|]. reflexivity.
Qed.


Ltac handles :=
  cbn;
  repeat match goal with
         | |- context [Pos.eqb ?a ?b] =>
             destruct (Pos.eqb_spec a b); [try lia|]; cbn
         end.

Ltac enter H Hm Hg :=
  in_time H;
  match type of H with
  | (if ?b then _ else _) = Some _ => destruct b eqn:Hg; [|discriminate H]
  end;
  try match type of Hg with
      | (phaseIs _ _ && _) = true => apply andb_prop in Hg as [Hg ?]
      end;
  apply phaseIs_true in Hg as [Hm Hg];
  injection H as <-.

Lemma step_complete_next (w w' : World) (now n b : Z) :
  Invariant w n b ->
  step w (event now Complete) = Some w' ->
  currentLevel (state (render w)) < 5 ->
  w' = {| mounted := true;
          render :=
            {| state :=
                 {| gameState := GameState.playing;
                    currentLevel := currentLevel (state (render w)) + 1;
                    startTime := startTime (state (render w));
                    totalTime := totalTime (state (render w));
                    levelResults :=
                      Js.set (levelResults (state (render w)))
                        (currentLevel (state (render w)) - 1)
                        {| completed := true; skipped := false;
                           timeSpent := sinceStart (state (render w)) now |};
                    showSkipButton := false |};
               skipButtonTimer := Some (fresh w) |};
          timers := [{| handle := fresh w; due := now + 5000 |}];
          fresh := Pos.succ (fresh w);
          clock := now |}.
Proof.
  intros [Hh Ht _ _ _ _ _ _] H Hlt. enter H Hm Hg.
  open_world w. subst m. rewrite <- Hg.
  unfold call, handleLevelComplete, sinceStart. cbn.
  destruct (Z.leb_spec 5 (currentLevel s)); [lia|].
  destruct Ht as [-> | (_ & _ & _ & h & -> & ->)].
  - destruct t as [h|]; handles; reflexivity.
  - specialize (Hh h eq_refl). handles; try reflexivity; congruence.
Qed.

Lemma step_skip_next (w w' : World) (now n b : Z) :
  Invariant w n b ->
  step w (event now Skip) = Some w' ->
  currentLevel (state (render w)) < 5 ->
  w' = {| mounted := true;
          render :=
            {| state :=
                 {| gameState := GameState.playing;
                    currentLevel := currentLevel (state (render w)) + 1;
                    startTime := startTime (state (render w));
                    totalTime := totalTime (state (render w)) + 30000;
                    levelResults :=
                      Js.set (levelResults (state (render w)))
                        (currentLevel (state (render w)) - 1)
                        {| completed := true; skipped := false;
                           timeSpent := sinceStart (state (render w)) now |};
                    showSkipButton := false |};
               skipButtonTimer := Some (fresh w) |};
          timers := [{| handle := fresh w; due := now + 5000 |}];
          fresh := Pos.succ (fresh w);
          clock := now |}.
Proof.
  intros [Hh Ht _ _ _ _ _ _] H Hlt. enter H Hm Hg.
  open_world w. subst m. rewrite <- Hg.
  unfold call, handleSkip, handleLevelComplete, sinceStart. cbn.
  destruct (Z.leb_spec 5 (currentLevel s)); [lia|].
  destruct Ht as [-> | (_ & _ & _ & h & -> & ->)].
  - destruct t as [h|]; handles; reflexivity.
  - specialize (Hh h eq_refl). handles; try reflexivity; congruence.
Qed.

Lemma step_complete_finish (w w' : World) (now n b : Z) :
  Invariant w n b ->
  step w (event now Complete) = Some w' ->
  5 <= currentLevel (state (render w)) ->
  w' = {| mounted := true;
          render :=
            {| state :=
                 {| gameState := GameState.completed;
                    currentLevel := currentLevel (state (render w));
                    startTime := startTime (state (render w));
                    totalTime := sinceStart (state (render w)) now
                                 + totalTime (state (render w));
                    levelResults := levelResults (state (render w));
                    showSkipButton := false |};
               skipButtonTimer := skipButtonTimer (render w) |};
          timers := [];
          fresh := fresh w;
          clock := now |}.
Proof.
  intros [Hh Ht _ _ _ _ _ _] H Hge. enter H Hm Hg.
  open_world w. subst m.
  unfold call, handleLevelComplete, endGame, sinceStart. cbn.
  destruct (Z.leb_spec 5 (currentLevel s)); [|lia].
  replace (0 + totalTime s) with (totalTime s) by lia.
  destruct Ht as [-> | (_ & _ & _ & h & -> & ->)].
  - destruct t as [h|]; handles; destruct (Js.truthy (startTime s)); reflexivity.
  - handles; destruct (Js.truthy (startTime s)); try reflexivity; congruence.
Qed.

Lemma step_skip_finish (w w' : World) (now n b : Z) :
  Invariant w n b ->
  step w (event now Skip) = Some w' ->
  5 <= currentLevel (state (render w)) ->
  w' = {| mounted := true;
          render :=
            {| state :=
                 {| gameState := GameState.completed;
                    currentLevel := currentLevel (state (render w));
                    startTime := startTime (state (render w));
                    totalTime := sinceStart (state (render w)) now
                                 + totalTime (state (render w));
                    levelResults :=
                      Js.set (levelResults (state (render w)))
                        (currentLevel (state (render w)) - 1)
                        {| completed := false; skipped := true;
                           timeSpent := sinceStart (state (render w)) now |};
                    showSkipButton := false |};
               skipButtonTimer := skipButtonTimer (render w) |};
          timers := [];
          fresh := fresh w;
          clock := now |}.
Proof.
  intros [Hh Ht _ _ _ _ _ _] H Hge. enter H Hm Hg.
  open_world w. subst m.
  unfold call, handleSkip, handleLevelComplete, endGame, sinceStart. cbn.
  destruct (Z.leb_spec 5 (currentLevel s)); [|lia].
  replace (0 + totalTime s) with (totalTime s) by lia.
  destruct Ht as [-> | (_ & _ & _ & h & -> & ->)].
  - destruct t as [h|]; handles; destruct (Js.truthy (startTime s)); reflexivity.
  - handles; destruct (Js.truthy (startTime s)); try reflexivity; congruence.
Qed.

Lemma step_restart (w w' : World) (now n b : Z) :
  Invariant w n b ->
  step w (event now Restart) = Some w' ->
  gameState (state (render w)) = GameState.completed /\
  w' = {| mounted := true;
          render := {| state := initialState;
                       skipButtonTimer := skipButtonTimer (render w) |};
          timers := [];
          fresh := fresh w;
          clock := now |}.
Proof.
  intros [Hh Ht _ _ _ _ _ _] H. enter H Hm Hg. split; [exact Hg|].
  open_world w. subst m.
  unfold call, resetGame. cbn.
  destruct Ht as [-> | (_ & Hp & _)]; [|congruence].
  destruct t as [h|]; handles; reflexivity.
Qed.

Lemma step_timeout (w w' : World) (h : TimerHandle) (now n b : Z) :
  Invariant w n b ->
  step w (event now (Timeout h)) = Some w' ->
  gameState (state (render w)) = GameState.playing /\
  showSkipButton (state (render w)) = false /\
  skipButtonTimer (render w) = Some h /\
  timers w = [{| handle := h; due := b + 5000 |}] /\
  b + 5000 <= now /\
  w' = {| mounted := true;
          render := {| state := showSkip (state (render w));
                       skipButtonTimer := Some h |};
          timers := [];
          fresh := fresh w;
          clock := now |}.
Proof.
  intros [Hh Ht _ _ _ _ _ _] H. in_time H.
  destruct Ht as [E | (Hm & Hp & Hs & k & Hk & E)]; rewrite E in H;
    cbn [find handle due] in H; [discriminate H|].
  destruct (Pos.eqb_spec k h) as [->|]; [|discriminate H].
  cbn [due] in H.
  destruct (Z.leb_spec (b + 5000) now); [|discriminate H].
  injection H as <-. repeat (split; [assumption|]).
  open_world w. subst m ts t. unfold call. handles; try reflexivity; congruence.
Qed.

Lemma step_unmount (w w' : World) (now n b : Z) :
  Invariant w n b ->
  step w (event now Unmount) = Some w' ->
  w' = {| mounted := false; render := render w; timers := [];
          fresh := fresh w; clock := now |}.
Proof.
  intros [Hh Ht _ _ _ _ _ _] H. in_time H.
  destruct (mounted w); [|discriminate H]. injection H as <-.
  destruct Ht as [-> | (_ & _ & _ & h & -> & ->)].
  - destruct (skipButtonTimer (render w)); reflexivity.
  - now rewrite cancel_only.
Qed.


(** ** The invariant is kept *)

Ltac plain := cbn -[Z.mul Z.add Z.sub Js.get Js.set Js.fill].

Lemma step_clock (w w' : World) (ev : Event) :
  step w ev = Some w' -> clock w <= time ev.
Proof.
  unfold step. destruct (Z.ltb_spec (time ev) (clock w)); [discriminate|]. lia.
Qed.

Lemma step_playing (w w' : World) (now : Z) (a : Action) :
  a = Complete \/ a = Skip ->
  step w (event now a) = Some w' ->
  mounted w = true /\ gameState (state (render w)) = GameState.playing.
Proof.
  intros [-> | ->] H; in_time H.
  - destruct (phaseIs w GameState.playing) eqn:Hp; [|discriminate H].
    now apply phaseIs_true.
  - destruct (phaseIs w GameState.playing) eqn:Hp; [|discriminate H].
    now apply phaseIs_true.
Qed.

Lemma step_skip_visible (w w' : World) (now : Z) :
  step w (event now Skip) = Some w' -> showSkipButton (state (render w)) = true.
Proof.
  intros H. in_time H.
  destruct (phaseIs w GameState.playing); [|discriminate H].
  destruct (showSkipButton (state (render w))); [reflexivity | discriminate H].
Qed.

Lemma invariant_initial : Invariant initialWorld 0 0.
Proof.
  constructor; cbn; try discriminate; try lia; auto.
Qed.

Lemma step_invariant (w w' : World) (ev : Event) (n b : Z) :
  Invariant w n b ->
  step w ev = Some w' ->
  Invariant w' (countSkip n ev) (levelStart b ev).
Proof.
  intros Hinv H.
  pose proof (step_clock _ _ _ H) as Hclock.
  destruct ev as [now a]. change {| time := now; action := a |} with (event now a) in *.
  cbn [time event] in Hclock. unfold countSkip, levelStart. cbn [action time event].
  destruct Hinv as [Hh Ht Hi Hl Hr Hs Hp Hk].
  assert (Hinv : Invariant w n b) by (constructor; assumption).
  destruct a.
  - (* Start *)
    destruct (step_start _ _ _ _ _ Hinv H) as [_ ->].
    constructor; plain; try discriminate; try lia.
    + intros h [= <-]. apply Pos.lt_succ_diag_r.
    + right. repeat split; eauto.
    + intros _ i Hi5. now apply get_fill.
    + intros _. exists now. split; [reflexivity | lia].
  - (* Complete *)
    destruct (step_playing _ _ _ _ (or_introl eq_refl) H) as [Hm Hg].
    destruct (Z.lt_ge_cases (currentLevel (state (render w))) 5) as [Hlt | Hge].
    + rewrite (step_complete_next _ _ _ _ _ Hinv H Hlt).
      constructor; plain; try discriminate; try lia.
      * intros h [= <-]. apply Pos.lt_succ_diag_r.
      * right. repeat split; eauto.
      * intros _. specialize (Hl Hg). lia.
      * intros _ i Hi5. rewrite get_set_other by lia. apply (Hr Hg). lia.
      * intros _. destruct (Hs Hg) as (t & Et & Ht'). exists t. split; [exact Et | lia].
      * intros _. now apply Hp.
    + rewrite (step_complete_finish _ _ _ _ _ Hinv H Hge).
      constructor; plain; try discriminate; try lia; auto.
  - (* Skip *)
    destruct (step_playing _ _ _ _ (or_intror eq_refl) H) as [Hm Hg].
    destruct (Z.lt_ge_cases (currentLevel (state (render w))) 5) as [Hlt | Hge].
    + rewrite (step_skip_next _ _ _ _ _ Hinv H Hlt).
      constructor; plain; try discriminate; try lia.
      * intros h [= <-]. apply Pos.lt_succ_diag_r.
      * right. repeat split; eauto.
      * intros _. specialize (Hl Hg). lia.
      * intros _ i Hi5. rewrite get_set_other by lia. apply (Hr Hg). lia.
      * intros _. destruct (Hs Hg) as (t & Et & Ht'). exists t. split; [exact Et | lia].
      * intros _. rewrite (Hp Hg). lia.
    + rewrite (step_skip_finish _ _ _ _ _ Hinv H Hge).
      constructor; plain; try discriminate; try lia; auto.
  - (* Restart *)
    destruct (step_restart _ _ _ _ _ Hinv H) as [_ ->].
    constructor; plain; try discriminate; try lia; auto.
  - (* Timeout *)
    destruct (step_timeout _ _ _ _ _ _ Hinv H) as (Hg & Hv & Hk' & Et & Hdue & ->).
    constructor; plain; auto; try (intros; congruence).
    + intros h' [= <-]. now apply Hh.
    + intros Hg'. destruct (Hs Hg') as (t & Et' & Ht'). exists t. split; [exact Et' | lia].
  - (* Unmount *)
    rewrite (step_unmount _ _ _ _ _ Hinv H).
    constructor; plain; try lia; auto.
    intros Hg'. destruct (Hs Hg') as (t & Et' & Ht'). exists t. split; [exact Et' | lia].
Qed.

Lemma run_invariant (evs : list Event) :
  forall (w w' : World) (n b : Z),
    Invariant w n b ->
    run w evs = Some w' ->
    Invariant w' (fold_left countSkip evs n) (fold_left levelStart evs b).
Proof.
  induction evs as [|ev evs IH]; intros w w' n b Hinv H; cbn in *.
  - now injection H as <-.
  - destruct (step w ev) as [w1|] eqn:E; [|discriminate H].
    eapply IH; [|exact H]. eapply step_invariant; eauto.
Qed.

Lemma reachable_invariant (evs : list Event) (w : World) :
  run initialWorld evs = Some w ->
  Invariant w (skipsInSession evs) (levelBegan evs).
Proof. apply run_invariant, invariant_initial. Qed.

Lemma run_snoc (evs : list Event) (ev : Event) :
  forall w w1 w', run w evs = Some w1 -> step w1 ev = Some w' ->
                  run w (evs ++ [ev]) = Some w'.
Proof.
  induction evs as [|e evs IH]; intros w w1 w' H1 H2; cbn in *.
  - injection H1 as ->. now rewrite H2.
  - destruct (step w e); [eauto | discriminate].
Qed.


Lemma sinceStart_truthy (s : GameContainerState) (t now : Z) :
  startTime s = Some t -> t <> 0 -> sinceStart s now = now - t.
Proof.
  intros E Ht. unfold sinceStart. rewrite E. cbn.
  destruct (Z.eqb_spec t 0); [contradiction | reflexivity].
Qed.

Lemma skipsInSession_snoc (evs : list Event) (ev : Event) :
  skipsInSession (evs ++ [ev]) = countSkip (skipsInSession evs) ev.
Proof. unfold skipsInSession. now rewrite fold_left_app. Qed.

(** Runs the events from the initial world, then one more event, and opens
    the goal [exists w w', run ... = Some w /\ step w ev = Some w' /\ _]
    with the two worlds computed. *)
Ltac reached evs ev :=
  let r := eval vm_compute in (run initialWorld evs) in
  match r with
  | Some ?w =>
      let r' := eval vm_compute in (step w ev) in
      match r' with
      | Some ?w' =>
          assert (Hrun : run initialWorld evs = Some w)
            by (vm_compute; reflexivity);
          assert (Hstep : step w ev = Some w')
            by (vm_compute; reflexivity);
          exists w, w'; split; [exact Hrun|]; split; [exact Hstep|]
      end
  end.

(** ** Skipping a level *)

(** C1.  What the skip transition leaves behind, in every state a run from
    the initial state can reach.  The handler queues the skipped outcome and
    the 30000 ms penalty, then calls [handleLevelComplete] of the same
    render, which rebuilds the outcomes from the state of that render.
    Below level 5 the update queued last replaces the outcomes: the skipped
    level ends up recorded as completed and not skipped, with the penalty
    added.  At level 5 the skipped outcome stays, and [endGame] replaces
    [totalTime] by the elapsed time plus the total of the render, so the
    penalty of this skip is not in it. *)
Theorem skip_outcome (evs : list Event) (w w' : World) (now : Z) :
  run initialWorld evs = Some w ->
  step w (event now Skip) = Some w' ->
  (currentLevel (state (render w)) < 5 ->
   Js.get (levelResults (state (render w'))) (currentLevel (state (render w)) - 1)
     = Some {| completed := true; skipped := false;
               timeSpent := sinceStart (state (render w)) now |} /\
   totalTime (state (render w')) = totalTime (state (render w)) + 30000 /\
   gameState (state (render w')) = GameState.playing) /\
  (currentLevel (state (render w)) = 5 ->
   Js.get (levelResults (state (render w'))) 4
     = Some {| completed := false; skipped := true;
               timeSpent := sinceStart (state (render w)) now |} /\
   totalTime (state (render w'))
     = sinceStart (state (render w)) now + totalTime (state (render w)) /\
   gameState (state (render w')) = GameState.completed).
Proof.
  intros Hrun H. pose proof (reachable_invariant _ _ Hrun) as Hinv.
  destruct (step_playing _ _ _ _ (or_intror eq_refl) H) as [_ Hg].
  pose proof (playing_level _ _ _ Hinv Hg) as Hl.
  split; intros Hlevel.
  - rewrite (step_skip_next _ _ _ _ _ Hinv H Hlevel). plain.
    rewrite get_set_same by lia. auto.
  - rewrite (step_skip_finish _ _ _ _ _ Hinv H) by lia. plain.
    rewrite Hlevel. change (5 - 1) with 4. rewrite get_set_same by lia. auto.
Qed.

(** Skipping level 1 six and a half seconds after the start: the level is
    recorded as completed. *)
Lemma skip_outcome_level_1 :
  exists w w',
    run initialWorld [event 1000 Start; event 6000 (Timeout 1%positive)] = Some w /\
    step w (event 7500 Skip) = Some w' /\
    Js.get (levelResults (state (render w'))) 0
      = Some {| completed := true; skipped := false; timeSpent := 6500 |} /\
    totalTime (state (render w')) = 30000.
Proof.
  reached [event 1000 Start; event 6000 (Timeout 1%positive)] (event 7500 Skip).
  destruct (skip_outcome _ _ _ _ Hrun Hstep) as [H _].
  destruct (H ltac:(vm_compute; reflexivity)) as (H1 & H2 & _).
  split; [exact H1 | exact H2].
Defined.

(** ** Completing a level *)

(** C2.  What the level-complete transition leaves behind.  Below level 5
    the level is recorded as completed with the elapsed time and the total
    is untouched.  At level 5 the handler builds the new outcomes and calls
    [endGame], which does not store them: the outcomes stay as they were, so
    the fifth entry is still the default one. *)
Theorem complete_outcome (evs : list Event) (w w' : World) (now : Z) :
  run initialWorld evs = Some w ->
  step w (event now Complete) = Some w' ->
  (currentLevel (state (render w)) < 5 ->
   Js.get (levelResults (state (render w'))) (currentLevel (state (render w)) - 1)
     = Some {| completed := true; skipped := false;
               timeSpent := sinceStart (state (render w)) now |} /\
   totalTime (state (render w')) = totalTime (state (render w))) /\
  (currentLevel (state (render w)) = 5 ->
   gameState (state (render w')) = GameState.completed /\
   levelResults (state (render w')) = levelResults (state (render w)) /\
   Js.get (levelResults (state (render w'))) 4 = Some defaultResult).
Proof.
  intros Hrun H. pose proof (reachable_invariant _ _ Hrun) as Hinv.
  destruct (step_playing _ _ _ _ (or_introl eq_refl) H) as [_ Hg].
  pose proof (playing_level _ _ _ Hinv Hg) as Hl.
  split; intros Hlevel.
  - rewrite (step_complete_next _ _ _ _ _ Hinv H Hlevel). plain.
    rewrite get_set_same by lia. auto.
  - rewrite (step_complete_finish _ _ _ _ _ Hinv H) by lia. plain.
    repeat split. apply (playing_results _ _ _ Hinv Hg). lia.
Qed.

(** Five honest completions: the fifth level is not recorded. *)
Lemma complete_outcome_level_5 :
  exists w w',
    run initialWorld
      [event 1000 Start; event 2000 Complete; event 3000 Complete;
       event 4000 Complete; event 5000 Complete] = Some w /\
    step w (event 6000 Complete) = Some w' /\
    gameState (state (render w')) = GameState.completed /\
    Js.get (levelResults (state (render w'))) 4
      = Some {| completed := false; skipped := false; timeSpent := 0 |}.
Proof.
  reached [event 1000 Start; event 2000 Complete; event 3000 Complete;
           event 4000 Complete; event 5000 Complete] (event 6000 Complete).
  destruct (complete_outcome _ _ _ _ Hrun Hstep) as [_ H].
  destruct (H eq_refl) as (H1 & _ & H3).
  split; [exact H1 | exact H3].
Defined.

(** ** Finishing *)

(** C3.  The total after the fifth level.  The phase becomes completed and
    [totalTime] is the elapsed time plus 30000 ms for every skip before this
    transition.  When the fifth level is itself skipped, its penalty is
    queued first and then overwritten by [endGame], which adds the total of
    the render: the final total holds one penalty less than the session has
    skips, and can be below the penalties of the session. *)
Theorem final_time (evs : list Event) (w w' : World) (now : Z) (a : Action) :
  run initialWorld evs = Some w ->
  a = Complete \/ a = Skip ->
  step w (event now a) = Some w' ->
  currentLevel (state (render w)) = 5 ->
  gameState (state (render w')) = GameState.completed /\
  totalTime (state (render w'))
    = sinceStart (state (render w)) now + 30000 * skipsInSession evs /\
  (a = Skip ->
   totalTime (state (render w'))
     = sinceStart (state (render w)) now
       + 30000 * skipsInSession (evs ++ [event now a]) - 30000).
Proof.
  intros Hrun Ha H Hlevel. pose proof (reachable_invariant _ _ Hrun) as Hinv.
  destruct (step_playing _ _ _ _ Ha H) as [_ Hg].
  pose proof (playing_penalty _ _ _ Hinv Hg) as Hp.
  assert (totalTime (state (render w'))
          = sinceStart (state (render w)) now + 30000 * skipsInSession evs
          /\ gameState (state (render w')) = GameState.completed) as [Ht Hc].
  { destruct Ha as [-> | ->].
    - rewrite (step_complete_finish _ _ _ _ _ Hinv H) by lia. plain.
      rewrite Hp. auto.
    - rewrite (step_skip_finish _ _ _ _ _ Hinv H) by lia. plain.
      rewrite Hp. auto. }
  repeat split; auto.
  intros ->. rewrite skipsInSession_snoc. unfold countSkip. cbn [action event]. lia.
Qed.

(** Four completions and a skip of level 5, ten seconds after the start:
    the total is 10000, below the 30000 ms of the one skip of the session. *)
Lemma final_time_skip_5 :
  exists w w',
    run initialWorld
      [event 1000 Start; event 2000 Complete; event 3000 Complete;
       event 4000 Complete; event 5000 Complete;
       event 10000 (Timeout 5%positive)] = Some w /\
    step w (event 11000 Skip) = Some w' /\
    gameState (state (render w')) = GameState.completed /\
    totalTime (state (render w')) = 10000 /\
    Js.get (levelResults (state (render w'))) 4
      = Some {| completed := false; skipped := true; timeSpent := 10000 |}.
Proof.
  reached [event 1000 Start; event 2000 Complete; event 3000 Complete;
           event 4000 Complete; event 5000 Complete;
           event 10000 (Timeout 5%positive)] (event 11000 Skip).
  destruct (final_time _ _ _ _ _ Hrun (or_intror eq_refl) Hstep eq_refl)
    as (H1 & H2 & _).
  split; [exact H1|]. split; [exact H2 | reflexivity].
Defined.


(** ** Restart *)

(** C5.  [resetGame] replaces the state, whatever it was, by the initial
    one: idle, level 1, no start time, a total of 0, five default outcomes
    and a hidden skip button; the restart control of the results view calls
    it. *)
Theorem restart_resets (w : World) (now : Z) :
  mounted w = true ->
  let s' := state (render (call (resetGame (render w)) now w)) in
  gameState s' = GameState.idle /\
  currentLevel s' = 1 /\
  startTime s' = None /\
  totalTime s' = 0 /\
  levelResults s'
    = [Some defaultResult; Some defaultResult; Some defaultResult;
       Some defaultResult; Some defaultResult] /\
  (forall i, 0 <= i < 5 ->
     Js.get (levelResults s') i
       = Some {| completed := false; skipped := false; timeSpent := 0 |}) /\
  showSkipButton s' = false /\
  s' = initialState /\
  (gameState (state (render w)) = GameState.completed ->
   clock w <= now ->
   step w (event now Restart) = Some (call (resetGame (render w)) now w)).
Proof.
  intros Hm.
  assert (state (render (call (resetGame (render w)) now w)) = initialState) as E.
  { open_world w. subst m. unfold call, resetGame.
    destruct t as [h|]; reflexivity. }
  cbv zeta. rewrite E. repeat (split; [reflexivity|]).
  split; [intros i Hi; now apply get_fill|].
  repeat (split; [reflexivity|]).
  intros Hg Hc. unfold step, phaseIs. cbn [time action event].
  destruct (Z.ltb_spec now (clock w)); [lia|].
  now rewrite Hm, Hg.
Qed.

(** Restart from the results view after five completions. *)
Lemma restart_resets_after_game :
  exists w,
    run initialWorld
      [event 1000 Start; event 2000 Complete; event 3000 Complete;
       event 4000 Complete; event 5000 Complete; event 6000 Complete] = Some w /\
    gameState (state (render w)) = GameState.completed /\
    state (render (call (resetGame (render w)) 7000 w)) = initialState.
Proof.
  let r := eval vm_compute in
      (run initialWorld
         [event 1000 Start; event 2000 Complete; event 3000 Complete;
          event 4000 Complete; event 5000 Complete; event 6000 Complete]) in
  match r with
  | Some ?w =>
      exists w; split; [vm_compute; reflexivity|]; split; [reflexivity|];
      pose proof (restart_resets w 7000 eq_refl) as H
  end.
  cbv zeta in H. destruct H as (_ & _ & _ & _ & _ & _ & _ & H & _). exact H.
Defined.


Lemma levelBegan_snoc (evs : list Event) (ev : Event) :
  levelBegan (evs ++ [ev]) = levelStart (levelBegan evs) ev.
Proof. unfold levelBegan. now rewrite fold_left_app. Qed.

(** ** The skip button *)



(** ** An unset start time *)



(** ** The total while playing *)




(** ** A completion signal from an earlier render

    [step] hands every event to the handler of the latest render.  The
    microgames call [onComplete] from a timeout set 300 or 500 ms earlier,
    with the handler of the render of that moment; when the level has
    changed in between, that handler still reads the earlier level. *)

(** Level 4 is solved, then skipped before its completion signal arrives:
    the signal moves the index from 5 to 6 while the game is still playing. *)
Remark late_completion_exceeds_5 :
  exists w4 w5,
    run initialWorld
      [event 1000 Start; event 2000 Complete; event 3000 Complete;
       event 4000 Complete; event 9000 (Timeout 4%positive)] = Some w4 /\
    step w4 (event 9100 Skip) = Some w5 /\
    currentLevel (state (render w5)) = 5 /\
    gameState (state (render (call (handleLevelComplete (render w4)) 9400 w5)))
      = GameState.playing /\
    currentLevel (state (render (call (handleLevelComplete (render w4)) 9400 w5))) = 6.
Proof.
  reached [event 1000 Start; event 2000 Complete; event 3000 Complete;
           event 4000 Complete; event 9000 (Timeout 4%positive)] (event 9100 Skip).
  vm_compute. auto.
Qed.

End ContainerFacts.

(** * The progress indicator *)
Module ProgressFacts.
Import ProgressTracker.

Lemma get_outcome (outcomes : list LevelResult) (d : LevelResult) (j : Z) :
  0 <= j < Z.of_nat (List.length outcomes) ->
  Js.get (map Some outcomes) j = Some (nth (Z.to_nat j) outcomes d).
Proof.
  intros Hj. unfold Js.get. destruct (Z.ltb_spec j 0); [lia|].
  rewrite nth_error_map.
  rewrite (nth_error_nth' outcomes d) by lia. reflexivity.
Qed.

(** C9.  The status of the slot of level [i], for five recorded outcomes:
    below the current level it is read from the outcome of the level,
    completed when the outcome is completed, else skipped when it is
    skipped (and pending when it is neither); at the current level it is
    current; above it, pending.  Nothing but the current level and the
    outcome of the level enters the result. *)
Theorem level_status (currentLevel : Z) (outcomes : list LevelResult) (i : Z) :
  1 <= currentLevel <= 5 ->
  List.length outcomes = 5%nat ->
  1 <= i <= 5 ->
  let outcome := nth (Z.to_nat (i - 1)) outcomes GameContainer.defaultResult in
  let status := getLevelStatus currentLevel (map Some outcomes) (i - 1) in
  (i < currentLevel -> completed outcome = true ->
   status = Some "completed"%string) /\
  (i < currentLevel -> completed outcome = false -> skipped outcome = true ->
   status = Some "skipped"%string) /\
  (i < currentLevel -> completed outcome = false -> skipped outcome = false ->
   status = Some "pending"%string) /\
  (i = currentLevel -> status = Some "current"%string) /\
  (currentLevel < i -> status = Some "pending"%string) /\
  (forall outcomes' : list LevelResult,
     List.length outcomes' = 5%nat ->
     nth (Z.to_nat (i - 1)) outcomes' GameContainer.defaultResult = outcome ->
     getLevelStatus currentLevel (map Some outcomes') (i - 1) = status).
Proof.
  intros _ Hlen Hi. cbv zeta. unfold getLevelStatus.
  replace (i - 1 + 1) with i by lia.
  rewrite (get_outcome outcomes GameContainer.defaultResult) by lia.
  repeat split.
  - intros Hlt Hc. destruct (Z.ltb_spec i currentLevel); [|lia]. now rewrite Hc.
  - intros Hlt Hc Hs. destruct (Z.ltb_spec i currentLevel); [|lia]. now rewrite Hc, Hs.
  - intros Hlt Hc Hs. destruct (Z.ltb_spec i currentLevel); [|lia]. now rewrite Hc, Hs.
  - intros ->. destruct (Z.ltb_spec currentLevel currentLevel); [lia|].
    now rewrite Z.eqb_refl.
  - intros Hgt. destruct (Z.ltb_spec i currentLevel); [lia|].
    destruct (Z.eqb_spec i currentLevel); [lia | reflexivity].
  - intros outcomes' Hlen' E.
    rewrite (get_outcome outcomes' GameContainer.defaultResult) by lia.
    now rewrite E.
Qed.

(** Level 4 on screen after a completed, a skipped and a completed level. *)
Lemma level_status_at_level_4 :
  let outcomes :=
    [ {| completed := true; skipped := false; timeSpent := 2000 |};
      {| completed := false; skipped := true; timeSpent := 9000 |};
      {| completed := true; skipped := false; timeSpent := 12000 |};
      GameContainer.defaultResult; GameContainer.defaultResult ] in
  slots 4 (map Some outcomes)
    = [Some "completed"; Some "skipped"; Some "completed";
       Some "current"; Some "pending"]%string /\
  getLevelStatus 4 (map Some outcomes) (2 - 1) = Some "skipped"%string.
Proof.
  intros outcomes. split; [reflexivity|].
  pose proof (level_status 4 outcomes 2 ltac:(lia) eq_refl ltac:(lia)) as H.
  cbv zeta in H. destruct H as (_ & H & _).
  exact (H ltac:(lia) eq_refl eq_refl).
Defined.

End ProgressFacts.

(** * The microgames and their completion callback *)
Module MicrogameFacts.
Import Microgame.

Lemma run_app {S C : Type} (M : Component S C) (evs1 evs2 : list Event) :
  forall w : World S C,
    run M w (evs1 ++ evs2)
    = match run M w evs1 with
      | Some w1 => run M w1 evs2
      | None => None
      end.
Proof.
  induction evs1 as [|ev evs1 IH]; intros w; cbn; [reflexivity|].
  destruct (step M w ev); [apply IH | reflexivity].
Qed.

Lemma run_preserves {S C : Type} (M : Component S C) (P : World S C -> Prop) :
  (forall w ev w', P w -> step M w ev = Some w' -> P w') ->
  forall evs w w', P w -> run M w evs = Some w' -> P w'.
Proof.
  intros Hstep. induction evs as [|ev evs IH]; intros w w' Hw H; cbn in H.
  - now injection H as <-.
  - destruct (step M w ev) as [w1|] eqn:E; [|discriminate H].
    eapply IH; [|exact H]. eapply Hstep; eauto.
Qed.

(** ** DirectionMatch *)
Section Direction.
Import DirectionMatch.
Variables (target : Direction) (shuffled : list Direction).
Variable g : DirectionMatchState.
Hypothesis g_fresh : feedback g = None.

Lemma direction_clear (index : Z) : withFeedback (withFeedback g (Some index)) None = g.
Proof. destruct g. cbn in g_fresh. now subst. Qed.

Lemma direction_step (w w' : World DirectionMatchState Callback) (ev : Event) :
  Stage g w -> step (instance target shuffled) w ev = Some w' -> Stage g w'.
Proof.
  intros Hw H. destruct w as [m s q c n].
  destruct Hw as [Hm Hs Hq Hn | i d Hm Hs Hi Hq Hn | i d Hm Hs Hi Hq Hn | i Hm Hs Hi Hq Hn];
    cbn [mounted component queue calls] in *; subst m s q n.
  - (* waiting *)
    destruct ev as [t index | t k]; cbn in H.
    + destruct (c <=? t); cbn in H; [|discriminate H].
      unfold handleArrowTap in H. rewrite g_fresh in H.
      destruct (Z.ltb_spec index 0); [discriminate H|].
      destruct (nth_error _ (Z.to_nat index)) as [arrow|] eqn:E; [|discriminate H].
      destruct (isTarget arrow) eqn:Ea; injection H as <-.
      * apply (Right g _ index (t + 500)); try reflexivity.
        unfold isTargetAt. destruct (Z.leb_spec 0 index); [|lia].
        cbn [andb]. now rewrite E.
      * apply (Wrong g _ index (t + 500)); try reflexivity.
        unfold isTargetAt. destruct (Z.leb_spec 0 index); [|lia].
        cbn [andb]. now rewrite E.
    + destruct k; discriminate H.
  - (* feedback of a wrong tap *)
    destruct ev as [t index | t k]; cbn in H.
    + destruct (c <=? t); cbn in H; [|discriminate H]. injection H as <-.
      apply (Wrong g _ i d); auto.
    + destruct k as [|k]; cbn in H; [|destruct k; discriminate H].
      destruct ((c <=? t) && (d <=? t)); [|discriminate H]. injection H as <-.
      apply Waiting; try reflexivity. apply direction_clear.
  - (* feedback of the right tap *)
    destruct ev as [t index | t k]; cbn in H.
    + destruct (c <=? t); cbn in H; [|discriminate H]. injection H as <-.
      apply (Right g _ i d); auto.
    + destruct k as [|k]; cbn in H; [|destruct k; discriminate H].
      destruct ((c <=? t) && (d <=? t)); [|discriminate H]. injection H as <-.
      apply (Done g _ i); auto.
  - (* done *)
    destruct ev as [t index | t k]; cbn in H.
    + rewrite andb_false_r in H. discriminate H.
    + destruct k; discriminate H.
Qed.

End Direction.

Section DirectionInstance.
Import DirectionMatch.
Variables (target : Direction) (shuffled : list Direction).

(** X9.  DirectionMatch calls [onComplete] at most once, whatever the player
    taps and whenever the timeouts fire; it has called it only after a tap
    on the target, and once the feedback of that tap is over it has called
    it; after a wrong tap and its feedback the puzzle is as generated. *)
Lemma direction_match_completes_once (t0 : Z) (evs : list Event)
    (w : World DirectionMatchState Callback) :
  run (instance target shuffled) (mountAt (instance target shuffled) t0) evs = Some w ->
  (calls w <= 1)%nat /\
  (calls w = 1%nat ->
   exists index, feedback (component w) = Some index /\
                 isTargetAt (generateGame target shuffled) index = true) /\
  (forall index, feedback (component w) = Some index ->
                 isTargetAt (generateGame target shuffled) index = true ->
                 queue w = [] -> calls w = 1%nat) /\
  (feedback (component w) = None ->
   component w = generateGame target shuffled /\ queue w = [] /\ mounted w = true).
Proof.
  intros H.
  assert (Stage (generateGame target shuffled) w) as Hw.
  { eapply (run_preserves (instance target shuffled)
              (Stage (generateGame target shuffled))); [| |exact H].
    - intros; eapply direction_step; eauto; reflexivity.
    - apply Waiting; reflexivity. }
  destruct Hw as [Hm Hs Hq Hn | i d Hm Hs Hi Hq Hn | i d Hm Hs Hi Hq Hn | i Hm Hs Hi Hq Hn];
    rewrite Hs, Hn, Hq, ?Hm; cbn [withFeedback feedback generateGame]; repeat split;
    try lia; try discriminate; try congruence; eauto.
Qed.

End DirectionInstance.

(** Two wrong taps, then the target: one call. *)
Example direction_match_two_wrong_one_right :
  let M := DirectionMatch.instance DirectionMatch.down
             [DirectionMatch.left; DirectionMatch.up; DirectionMatch.down;
              DirectionMatch.right] in
  let evs := [Tap 1000 0; Fire 1500 0; Tap 2000 1; Fire 2500 0;
              Tap 3000 2; Fire 3500 0]%nat in
  onTime M (mountAt M 0) evs = true /\
  option_map calls (run M (mountAt M 0) evs) = Some 1%nat /\
  option_map calls (run M (mountAt M 0) (firstn 4 evs)) = Some 0%nat.
Proof. vm_compute. auto. Qed.


(** ** ColorMatch *)
Section Color.
Import ColorMatch.
Variables (shuffled : list string) (arrange : list ColorOption -> list ColorOption).
Variable g : ColorMatchState.
Hypothesis g_fresh : selectedIndex g = None.

Lemma color_clear (index : Z) : select (select g (Some index)) None = g.
Proof. destruct g. cbn in g_fresh. now subst. Qed.

Lemma color_step (w w' : World Cells Callback) (ev : Event) :
  Stage g w -> step (instance shuffled arrange) w ev = Some w' -> Stage g w'.
Proof.
  intros Hw H. destruct w as [m s q c n].
  destruct Hw as [Hm Hs Hq Hn | i d Hm Hs Hi Hq Hn | i d Hm Hs Hi Hq Hn | i Hm Hs Hi Hq Hn];
    cbn [mounted component queue calls] in *; subst m s q n.
  - (* waiting *)
    destruct ev as [t index | t k]; cbn in H.
    + destruct (c <=? t); cbn in H; [|discriminate H].
      unfold handleOptionTap in H. cbn [feedback gameState isNone negb] in H.
      destruct (Z.ltb_spec index 0); [discriminate H|].
      destruct (nth_error _ (Z.to_nat index)) as [option|] eqn:E; [|discriminate H].
      destruct (isCorrect option) eqn:Ea; injection H as <-.
      * apply (Right g _ index (t + 300)); try reflexivity.
        unfold isCorrectAt. destruct (Z.leb_spec 0 index); [|lia].
        cbn [andb]. now rewrite E.
      * apply (Wrong g _ index (t + 500)); try reflexivity.
        unfold isCorrectAt. destruct (Z.leb_spec 0 index); [|lia].
        cbn [andb]. now rewrite E.
    + destruct k; discriminate H.
  - (* feedback of a wrong tap *)
    destruct ev as [t index | t k]; cbn in H.
    + destruct (c <=? t); cbn in H; [|discriminate H]. injection H as <-.
      apply (Wrong g _ i d); auto.
    + destruct k as [|k]; cbn in H; [|destruct k; discriminate H].
      destruct ((c <=? t) && (d <=? t)); [|discriminate H]. injection H as <-.
      apply Waiting; try reflexivity. cbn. now rewrite color_clear.
  - (* feedback of the right tap *)
    destruct ev as [t index | t k]; cbn in H.
    + destruct (c <=? t); cbn in H; [|discriminate H]. injection H as <-.
      apply (Right g _ i d); auto.
    + destruct k as [|k]; cbn in H; [|destruct k; discriminate H].
      destruct ((c <=? t) && (d <=? t)); [|discriminate H]. injection H as <-.
      apply (Done g _ i); auto.
  - (* done *)
    destruct ev as [t index | t k]; cbn in H.
    + rewrite andb_false_r in H. discriminate H.
    + destruct k; discriminate H.
Qed.

End Color.

Section ColorInstance.
Import ColorMatch.
Variables (shuffled : list string) (arrange : list ColorOption -> list ColorOption).

(** X11.  ColorMatch calls [onComplete] at most once; it has called it only after
    a tap on the correct option, and once the feedback of that tap is over
    it has called it; after a wrong tap and its feedback the puzzle is as
    generated. *)
Lemma color_match_completes_once (t0 : Z) (evs : list Event) (w : World Cells Callback) :
  run (instance shuffled arrange) (mountAt (instance shuffled arrange) t0) evs = Some w ->
  (calls w <= 1)%nat /\
  (calls w = 1%nat ->
   exists index, selectedIndex (gameState (component w)) = Some index /\
                 feedback (component w) = correct /\
                 isCorrectAt (generateGame shuffled arrange) index = true) /\
  (feedback (component w) = correct -> queue w = [] -> calls w = 1%nat) /\
  (feedback (component w) = none ->
   component w = {| gameState := generateGame shuffled arrange; feedback := none |} /\
   queue w = [] /\ mounted w = true).
Proof.
  intros H.
  assert (Stage (generateGame shuffled arrange) w) as Hw.
  { eapply (run_preserves (instance shuffled arrange)
              (Stage (generateGame shuffled arrange))); [| |exact H].
    - intros; eapply color_step; eauto; reflexivity.
    - apply Waiting; reflexivity. }
  destruct Hw as [Hm Hs Hq Hn | i d Hm Hs Hi Hq Hn | i d Hm Hs Hi Hq Hn | i Hm Hs Hi Hq Hn];
    rewrite Hs, Hn, Hq, ?Hm; cbn [select selectedIndex gameState feedback]; repeat split;
    try lia; try discriminate; try congruence; eauto.
Qed.

End ColorInstance.

(** Two wrong taps, then the correct option: one call. *)
Example color_match_two_wrong_one_right :
  let M := ColorMatch.instance ColorMatch.COLORS (@rev ColorMatch.ColorOption) in
  let evs := [Tap 1000 0; Fire 1500 0; Tap 2000 1; Fire 2500 0;
              Tap 3000 3; Fire 3300 0]%nat in
  onTime M (mountAt M 0) evs = true /\
  option_map calls (run M (mountAt M 0) evs) = Some 1%nat /\
  option_map calls (run M (mountAt M 0) (firstn 4 evs)) = Some 0%nat.
Proof. vm_compute. auto. Qed.

(** ** SequenceMemory *)

(** C7.  SequenceMemory, with the sequence 0 1 2 3, mounted at time 0.  The
    demonstration ends at 3200.  The player taps 0, 1, 2, then a wrong
    button at 4250 and, 450 ms later, the last button of the sequence: the
    sequence is complete and [onComplete] is set for 5200.  The timeout of
    the wrong tap fires at 4750 and empties [playerSequence]; the player
    repeats the four taps before 5200 and [onComplete] is set again, for
    5600.  Every timeout fires when it is due: [onComplete] is called at
    5200 and again at 5600, twice for one instance.  Until 5200 it has not
    been called. *)
Theorem sequence_memory_completes_twice :
  let M := SequenceMemory.instance [0; 1; 2; 3] in
  let demonstration :=
    [Fire 500 0; Fire 900 0; Fire 1100 0; Fire 1500 0; Fire 1700 0;
     Fire 2100 0; Fire 2300 0; Fire 2700 0; Fire 2900 0; Fire 3200 0]%nat in
  let first :=
    [Tap 4000 0; Tap 4100 1; Tap 4200 2; Tap 4250 0;
     Fire 4300 0; Fire 4400 0; Fire 4500 0; Tap 4700 3; Fire 4750 0]%nat in
  let second :=
    [Tap 4810 0; Tap 4910 1; Fire 5000 0; Tap 5010 2; Tap 5100 3; Fire 5110 1]%nat in
  let rest :=
    [Fire 5200 0; Fire 5210 0; Fire 5310 0; Fire 5400 0; Fire 5600 0]%nat in
  let evs := demonstration ++ first ++ second ++ rest in
  onTime M (mountAt M 0) evs = true /\
  option_map calls (run M (mountAt M 0) (demonstration ++ first)) = Some 0%nat /\
  option_map calls (run M (mountAt M 0) (demonstration ++ first ++ second ++ [Fire 5200 0%nat]))
    = Some 1%nat /\
  option_map calls (run M (mountAt M 0) evs) = Some 2%nat /\
  option_map (fun w => queue w) (run M (mountAt M 0) evs) = Some [].
Proof. vm_compute. auto 10. Qed.

End MicrogameFacts.

(** * The session: the skip control, the final total, the completion signal *)
Module SessionFacts.
Import React GameContainer Session ContainerFacts.

Lemma recorded_initial : Recorded initialWorld 0.
Proof. constructor; cbn; discriminate. Qed.

Lemma step_recorded (w w' : World) (ev : Event) (n b : Z) :
  Invariant w n b ->
  Recorded w b ->
  step w ev = Some w' ->
  Recorded w' (levelStart b ev).
Proof.
  intros Hinv [Hs] H.
  pose proof (step_clock _ _ _ H) as Hclock.
  destruct ev as [now a]. change {| time := now; action := a |} with (event now a) in *.
  cbn [time event] in Hclock. unfold levelStart. cbn [action time event].
  destruct a.
  - (* Start *)
    destruct (step_start _ _ _ _ _ Hinv H) as [_ ->].
    constructor; plain; discriminate.
  - (* Complete *)
    destruct (Z.lt_ge_cases (currentLevel (state (render w))) 5) as [Hlt | Hge].
    + rewrite (step_complete_next _ _ _ _ _ Hinv H Hlt).
      constructor; plain; discriminate.
    + rewrite (step_complete_finish _ _ _ _ _ Hinv H Hge).
      constructor; plain; discriminate.
  - (* Skip *)
    destruct (Z.lt_ge_cases (currentLevel (state (render w))) 5) as [Hlt | Hge].
    + rewrite (step_skip_next _ _ _ _ _ Hinv H Hlt).
      constructor; plain; discriminate.
    + rewrite (step_skip_finish _ _ _ _ _ Hinv H Hge).
      constructor; plain; discriminate.
  - (* Restart *)
    destruct (step_restart _ _ _ _ _ Hinv H) as [_ ->].
    constructor; plain; discriminate.
  - (* Timeout *)
    destruct (step_timeout _ _ _ _ _ _ Hinv H) as (Hg & Hv & Hk & Et & Hdue & ->).
    constructor; plain; auto; congruence.
  - (* Unmount *)
    rewrite (step_unmount _ _ _ _ _ Hinv H).
    constructor; plain; auto.
    intros Hg Hv. specialize (Hs Hg Hv). lia.
Qed.

Lemma run_recorded (evs : list Event) :
  forall (w w' : World) (n b : Z),
    Invariant w n b -> Recorded w b ->
    run w evs = Some w' ->
    Recorded w' (fold_left levelStart evs b).
Proof.
  induction evs as [|ev evs IH]; intros w w' n b Hinv Hrec H; cbn in *.
  - now injection H as <-.
  - destruct (step w ev) as [w1|] eqn:E; [|discriminate H].
    eapply IH; [| |exact H].
    + eapply step_invariant; eauto.
    + eapply step_recorded; eauto.
Qed.

Lemma reachable_recorded (evs : list Event) (w : World) :
  run initialWorld evs = Some w -> Recorded w (levelBegan evs).
Proof.
  intros H. eapply run_recorded; [apply invariant_initial | apply recorded_initial | exact H].
Qed.

(** ** The skip control *)

(** X3.  A level can be skipped only when it has been on screen for five
    seconds: every skip transition comes at least 5000 ms after the start,
    completion or skip that began the level. *)
Theorem skip_needs_five_seconds (evs : list Event) (w w' : World) (now : Z) :
  run initialWorld evs = Some w ->
  step w (event now Skip) = Some w' ->
  levelBegan evs + 5000 <= now.
Proof.
  intros Hrun H.
  destruct (step_playing _ _ _ _ (or_intror eq_refl) H) as [_ Hg].
  pose proof (step_skip_visible _ _ _ H) as Hv.
  pose proof (shown_after_delay _ _ (reachable_recorded _ _ Hrun) Hg Hv) as Hs.
  pose proof (step_clock _ _ _ H) as Hc. cbn in Hc. lia.
Qed.

(** The level began at 2000; the skip at 8000 is 6000 ms later. *)
Lemma skip_needs_five_seconds_level_2 :
  exists w w',
    run initialWorld
      [event 1000 Start; event 2000 Complete; event 7000 (Timeout 2%positive)] = Some w /\
    step w (event 8000 Skip) = Some w' /\
    2000 + 5000 <= 8000.
Proof.
  reached [event 1000 Start; event 2000 Complete; event 7000 (Timeout 2%positive)]
          (event 8000 Skip).
  exact (skip_needs_five_seconds _ _ _ _ Hrun Hstep).
Defined.

(** ** The final total and the timer display *)

(** X4.  When the fifth level is completed or skipped, the total handed to
    the results view is what the timer display computes at that instant from
    the props it had while playing: the elapsed time plus the penalties of
    the earlier skips.  The session must not have started at timestamp 0,
    which both components take for an unset start. *)
Theorem final_total_is_timer_display (evs : list Event) (w w' : World)
    (now : Z) (a : Action) :
  run initialWorld evs = Some w ->
  a = Complete \/ a = Skip ->
  step w (event now a) = Some w' ->
  currentLevel (state (render w)) = 5 ->
  startTime (state (render w)) <> Some 0 ->
  totalTime (state (render w')) = Timer.displayTime (timerProps (state (render w))) now.
Proof.
  intros Hrun Ha H Hl Hne. pose proof (reachable_invariant _ _ Hrun) as Hinv.
  destruct (step_playing _ _ _ _ Ha H) as [_ Hg].
  destruct (playing_start _ _ _ Hinv Hg) as (t & Et & _).
  assert (t <> 0) as Ht by congruence.
  assert (totalTime (state (render w'))
          = sinceStart (state (render w)) now + totalTime (state (render w))) as ->.
  { destruct Ha as [-> | ->].
    - rewrite (step_complete_finish _ _ _ _ _ Hinv H) by lia. reflexivity.
    - rewrite (step_skip_finish _ _ _ _ _ Hinv H) by lia. reflexivity. }
  rewrite (sinceStart_truthy _ _ _ Et Ht).
  unfold Timer.displayTime, timerProps. cbn [Timer.startTime Timer.additionalTime].
  rewrite Et. cbn [Js.toNumber].
  destruct (Z.eqb_spec t 0); [contradiction | reflexivity].
Qed.

(** Five completions, the last one five seconds after the start. *)
Lemma final_total_is_timer_display_5000 :
  exists w w',
    run initialWorld
      [event 1000 Start; event 2000 Complete; event 3000 Complete;
       event 4000 Complete; event 5000 Complete] = Some w /\
    step w (event 6000 Complete) = Some w' /\
    totalTime (state (render w')) = 5000 /\
    Timer.displayTime (timerProps (state (render w))) 6000 = 5000.
Proof.
  reached [event 1000 Start; event 2000 Complete; event 3000 Complete;
           event 4000 Complete; event 5000 Complete] (event 6000 Complete).
  pose proof (final_total_is_timer_display _ _ _ _ _ Hrun (or_introl eq_refl) Hstep
                eq_refl ltac:(discriminate)) as H.
  split; [|reflexivity]. rewrite H. reflexivity.
Defined.

(** ** The completion signal *)

(** X6.  A completion signal always takes the microgame off the screen,
    whichever render its handler comes from: it either ends the game or
    raises the level, which is the key of the element, by one. *)
Theorem completion_leaves_level (w : World) (r : Render) (now : Z) :
  mounted w = true ->
  let s := state (render w) in
  let s' := state (render (call (handleLevelComplete r) now w)) in
  gameState s' = GameState.completed \/
  (gameState s' = gameState s /\ currentLevel s' = currentLevel s + 1 /\
   forall e e', GameView.renderCurrentMicrogame s = Some e ->
                GameView.renderCurrentMicrogame s' = Some e' ->
                GameView.key e' <> GameView.key e).
Proof.
  intros Hm. cbv zeta. open_world w. subst m.
  destruct r as [sr tr]. unfold call, handleLevelComplete, endGame. plain.
  destruct (Z.leb_spec 5 (currentLevel sr)).
  - left. destruct tr as [h|]; handles; reflexivity.
  - right.
    assert (forall q : GameContainerState,
              currentLevel q = currentLevel s + 1 ->
              forall e e', GameView.renderCurrentMicrogame s = Some e ->
                           GameView.renderCurrentMicrogame q = Some e' ->
                           GameView.key e' <> GameView.key e) as Hkey.
    { intros q Hq e e'. unfold GameView.renderCurrentMicrogame.
      destruct (currentLevel s - 1 <? 0); [discriminate|].
      destruct (nth_error _ _); [|discriminate]. intros [= <-].
      destruct (currentLevel q - 1 <? 0); [discriminate|].
      destruct (nth_error _ _); [|discriminate]. intros [= <-].
      cbn. lia. }
    destruct tr as [h|]; handles; (split; [reflexivity|]); (split; [reflexivity|]);
      apply Hkey; reflexivity.
Qed.

(** The signal of level 4 arriving while level 5 is on screen. *)
Lemma completion_leaves_level_late :
  exists w4 w5,
    run initialWorld
      [event 1000 Start; event 2000 Complete; event 3000 Complete;
       event 4000 Complete; event 9000 (Timeout 4%positive)] = Some w4 /\
    step w4 (event 9100 Skip) = Some w5 /\
    currentLevel (state (render w5)) = 5 /\
    currentLevel (state (render (call (handleLevelComplete (render w4)) 9400 w5))) = 6.
Proof.
  reached [event 1000 Start; event 2000 Complete; event 3000 Complete;
           event 4000 Complete; event 9000 (Timeout 4%positive)] (event 9100 Skip).
  split; [reflexivity|].
  match goal with
  | |- currentLevel (state (render (call (handleLevelComplete ?r) _ ?w5))) = _ =>
      pose proof (completion_leaves_level w5 r 9400 eq_refl) as H
  end.
  cbv zeta in H. destruct H as [H | (_ & H & _)]; [discriminate H | exact H].
Defined.

End SessionFacts.

(** * The container and the signals of its microgames *)
Module PlayFacts.
Import React GameContainer ContainerFacts Play.

(** ** What the handlers leave, whatever the render they come from *)

Lemma call_unmounted (h : Handler unit) (now : Z) (w : World) :
  mounted w = false -> render (call h now w) = render w.
Proof. intros Hm. unfold call, commit. now rewrite Hm. Qed.

Lemma call_complete (r : Render) (now : Z) (w : World) :
  mounted w = true ->
  let s := state (render w) in
  state (render (call (handleLevelComplete r) now w))
  = if 5 <=? currentLevel (state r) then
      {| gameState := GameState.completed; currentLevel := currentLevel s;
         startTime := startTime s;
         totalTime := sinceStart (state r) now + totalTime (state r);
         levelResults := levelResults s; showSkipButton := false |}
    else
      {| gameState := gameState s; currentLevel := currentLevel s + 1;
         startTime := startTime s; totalTime := totalTime s;
         levelResults :=
           Js.set (levelResults (state r)) (currentLevel (state r) - 1)
             {| completed := true; skipped := false;
                timeSpent := sinceStart (state r) now |};
         showSkipButton := false |}.
Proof.
  intros Hm. cbv zeta. open_world w. subst m. destruct r as [sr tr].
  unfold call, handleLevelComplete, endGame, sinceStart. plain.
  destruct (5 <=? currentLevel sr); destruct tr as [h|]; plain;
    destruct (Js.truthy (startTime sr)); reflexivity.
Qed.

Lemma call_skip (now : Z) (w : World) :
  mounted w = true ->
  let s := state (render w) in
  state (render (call (handleSkip (render w)) now w))
  = if 5 <=? currentLevel s then
      {| gameState := GameState.completed; currentLevel := currentLevel s;
         startTime := startTime s;
         totalTime := sinceStart s now + totalTime s;
         levelResults :=
           Js.set (levelResults s) (currentLevel s - 1)
             {| completed := false; skipped := true; timeSpent := sinceStart s now |};
         showSkipButton := false |}
    else
      {| gameState := gameState s; currentLevel := currentLevel s + 1;
         startTime := startTime s; totalTime := totalTime s + 30000;
         levelResults :=
           Js.set (levelResults s) (currentLevel s - 1)
             {| completed := true; skipped := false; timeSpent := sinceStart s now |};
         showSkipButton := false |}.
Proof.
  intros Hm. cbv zeta. open_world w. subst m.
  unfold call, handleSkip, handleLevelComplete, endGame, sinceStart. plain.
  destruct (5 <=? currentLevel s); destruct t as [h|]; plain;
    destruct (Js.truthy (startTime s)); reflexivity.
Qed.


Lemma step_state (w w' : World) (ev : Event) :
  step w ev = Some w' ->
  match action ev with
  | Start =>
      state (render w')
      = {| gameState := GameState.playing; currentLevel := 1;
           startTime := Some (time ev); totalTime := 0;
           levelResults := Js.fill 5 defaultResult; showSkipButton := false |}
  | Complete =>
      phaseIs w GameState.playing = true /\
      w' = call (handleLevelComplete (render w)) (time ev) w
  | Skip =>
      phaseIs w GameState.playing = true /\
      w' = call (handleSkip (render w)) (time ev) w
  | Restart => state (render w') = initialState
  | Timeout _ =>
      state (render w') = state (render w) \/
      state (render w') = showSkip (state (render w))
  | Unmount => render w' = render w
  end.
Proof.
  intros H. destruct ev as [now a]. in_time H. cbn [action time].
  destruct a.
  - destruct (phaseIs w GameState.idle) eqn:Hp; [|discriminate H].
    apply phaseIs_true in Hp as [Hm _]. injection H as <-.
    open_world w. subst m. unfold call, startGame. plain.
    destruct t as [h|]; reflexivity.
  - destruct (phaseIs w GameState.playing) eqn:Hp; [|discriminate H].
    injection H as <-. auto.
  - destruct (phaseIs w GameState.playing) eqn:Hp; [|discriminate H].
    cbn [andb] in H. destruct (showSkipButton (state (render w))); [|discriminate H].
    injection H as <-. auto.
  - destruct (phaseIs w GameState.completed) eqn:Hp; [|discriminate H].
    apply phaseIs_true in Hp as [Hm _]. injection H as <-.
    open_world w. subst m. unfold call, resetGame. plain.
    destruct t as [h|]; reflexivity.
  - destruct (find _ _) as [x|]; [|discriminate H].
    destruct (due x <=? now); [|discriminate H]. injection H as <-.
    open_world w. unfold call, commit. plain. destruct m; plain; auto.
  - destruct (mounted w); [|discriminate H]. injection H as <-. reflexivity.
Qed.

(** ** Outcomes *)

Lemma set_ongoing (rs : list LevelResult) (last v : LevelResult) (L : Z) :
  List.length rs = 4%nat -> Forall unskipped rs -> unskipped v ->
  1 <= L < 5 ->
  exists rs', List.length rs' = 4%nat /\ Forall unskipped rs' /\
              Js.set (map Some rs ++ [Some last]) (L - 1) v = map Some rs' ++ [Some last].
Proof.
  intros Hlen Hrs Hv HL.
  destruct rs as [|a [|b [|c [|d [|e rs]]]]]; try discriminate Hlen.
  inversion Hrs as [|? ? Ha Hrs1]; subst. inversion Hrs1 as [|? ? Hb Hrs2]; subst.
  inversion Hrs2 as [|? ? Hc Hrs3]; subst. inversion Hrs3 as [|? ? Hd _]; subst.
  assert (L = 1 \/ L = 2 \/ L = 3 \/ L = 4) as [-> | [-> | [-> | ->]]] by lia.
  - exists [v; b; c; d]. repeat split; auto.
  - exists [a; v; c; d]. repeat split; auto.
  - exists [a; b; v; d]. repeat split; auto.
  - exists [a; b; c; v]. repeat split; auto.
Qed.

Lemma set_fifth (rs : list LevelResult) (last v : LevelResult) :
  List.length rs = 4%nat ->
  Js.set (map Some rs ++ [Some last]) (5 - 1) v = map Some rs ++ [Some v].
Proof.
  intros Hlen.
  destruct rs as [|a [|b [|c [|d [|e rs]]]]]; try discriminate Hlen. reflexivity.
Qed.

Lemma microgame_level (s : GameContainerState) (e : GameView.Element) :
  GameView.renderCurrentMicrogame s = Some e -> 1 <= currentLevel s <= 5.
Proof.
  unfold GameView.renderCurrentMicrogame.
  destruct (Z.ltb_spec (currentLevel s - 1) 0); [discriminate|].
  destruct (nth_error GameView.games (Z.to_nat (currentLevel s - 1))) eqn:E;
    [|discriminate].
  intros _.
  assert (Z.to_nat (currentLevel s - 1) < List.length GameView.games)%nat
    by (apply nth_error_Some; congruence).
  cbn in *. lia.
Qed.

Lemma onScreen_playing (w : World) (e : GameView.Element) :
  onScreen w = Some e ->
  mounted w = true /\ gameState (state (render w)) = GameState.playing /\
  GameView.renderCurrentMicrogame (state (render w)) = Some e.
Proof.
  unfold onScreen. destruct (phaseIs w GameState.playing) eqn:Hp; [|discriminate].
  apply phaseIs_true in Hp as [Hm Hg]. auto.
Qed.

(** ** The invariant *)

Lemma sound_initial : Sound initialStage.
Proof.
  constructor; cbn.
  - lia.
  - intros _.
    exists [defaultResult; defaultResult; defaultResult; defaultResult], defaultResult.
    repeat split; auto. repeat constructor; now left.
  - intros ? [].
Qed.

Lemma advance_sound (f f' : Stage) (ev : Moment) :
  Sound f -> advance f ev = Some f' -> Sound f'.
Proof.
  intros [Hl Hout Hcl] H.
  destruct f as [w sg], ev as [now m]. cbn [container signals] in *.
  unfold advance in H. cbn [move instant container signals] in H.
  assert (unskipped_done : forall t, unskipped {| completed := true; skipped := false;
                                                   timeSpent := t |})
    by (intros t; right; eauto).
  assert (Hplaying : gameState (state (render w)) = GameState.playing ->
                     exists rs : list LevelResult,
                       List.length rs = 4%nat /\ Forall unskipped rs /\
                       levelResults (state (render w))
                       = map Some rs ++ [Some defaultResult]).
  { intros Hg. destruct Hout as (rs & last & Hlen & Hrs & E & Hlast);
      [left; congruence|].
    destruct Hlast as [-> | [Hc _]]; [|congruence]. eauto. }
  destruct m as [a | | k].
  - (* the container *)
    destruct (step w (event now a)) as [w'|] eqn:Hs; [|discriminate H].
    injection H as <-. pose proof (step_state _ _ _ Hs) as Hst.
    cbn [action time event] in Hst.
    constructor; cbn [container signals]; [| |exact Hcl].
    + destruct a.
      * rewrite Hst. cbn. lia.
      * destruct Hst as [Hp ->]. apply phaseIs_true in Hp as [Hm _].
        rewrite (call_complete _ _ _ Hm).
        destruct (5 <=? currentLevel (state (render w))); cbn; lia.
      * destruct Hst as [Hp ->]. apply phaseIs_true in Hp as [Hm _].
        rewrite (call_skip _ _ Hm).
        destruct (5 <=? currentLevel (state (render w))); cbn; lia.
      * rewrite Hst. cbn. lia.
      * destruct Hst as [-> | ->]; cbn; lia.
      * rewrite Hst. exact Hl.
    + destruct a.
      * rewrite Hst. cbn [levelResults gameState]. intros _.
        exists [defaultResult; defaultResult; defaultResult; defaultResult], defaultResult.
        repeat split; auto. repeat constructor; now left.
      * destruct Hst as [Hp ->]. apply phaseIs_true in Hp as [Hm Hg].
        destruct (Hplaying Hg) as (rs & Hlen & Hrs & E).
        rewrite (call_complete _ _ _ Hm).
        destruct (Z.leb_spec 5 (currentLevel (state (render w))));
          cbn [levelResults gameState currentLevel]; intros _.
        -- exists rs, defaultResult. auto.
        -- rewrite E.
           destruct (set_ongoing rs defaultResult
                       {| completed := true; skipped := false;
                          timeSpent := sinceStart (state (render w)) now |}
                       (currentLevel (state (render w))) Hlen Hrs
                       (unskipped_done _) ltac:(lia)) as (rs' & Hlen' & Hrs' & ->).
           exists rs', defaultResult. auto.
      * destruct Hst as [Hp ->]. apply phaseIs_true in Hp as [Hm Hg].
        destruct (Hplaying Hg) as (rs & Hlen & Hrs & E).
        rewrite (call_skip _ _ Hm).
        destruct (Z.leb_spec 5 (currentLevel (state (render w))));
          cbn [levelResults gameState currentLevel].
        -- intros [Hn | H5]; [congruence|].
           assert (currentLevel (state (render w)) = 5) as -> by lia.
           rewrite E, (set_fifth _ _ _ Hlen).
           exists rs, {| completed := false; skipped := true;
                         timeSpent := sinceStart (state (render w)) now |}.
           repeat split; auto. right. eauto.
        -- intros _. rewrite E.
           destruct (set_ongoing rs defaultResult
                       {| completed := true; skipped := false;
                          timeSpent := sinceStart (state (render w)) now |}
                       (currentLevel (state (render w))) Hlen Hrs
                       (unskipped_done _) ltac:(lia)) as (rs' & Hlen' & Hrs' & ->).
           exists rs', defaultResult. auto.
      * rewrite Hst. cbn [levelResults gameState initialState]. intros _.
        exists [defaultResult; defaultResult; defaultResult; defaultResult], defaultResult.
        repeat split; auto. repeat constructor; now left.
      * destruct Hst as [-> | ->];
          cbn [levelResults gameState currentLevel showSkip]; exact Hout.
      * rewrite Hst. exact Hout.
  - (* the solving tap *)
    destruct (now <? clock w); [discriminate H|].
    destruct (onScreen w) as [e|] eqn:He; [|discriminate H].
    injection H as <-. apply onScreen_playing in He as (_ & Hg & He).
    apply microgame_level in He.
    constructor; cbn [container signals render]; [exact Hl | exact Hout |].
    intros s Hin. apply in_app_or in Hin as [Hin | [<- | []]]; [auto|].
    cbn [closure]. split; [exact He | exact (Hplaying Hg)].
  - (* a signal *)
    destruct (nth_error sg k) as [s|] eqn:Hk; [|discriminate H].
    destruct ((now <? clock w) || (now <? arrival s)); [discriminate H|].
    injection H as <-.
    assert (In s sg) as Hin by (eapply nth_error_In; eauto).
    destruct (Hcl s Hin) as [Hsl (rs0 & Hlen0 & Hrs0 & E0)].
    assert (forall x, In x (Microgame.dropNth k sg) -> In x sg) as Hsub.
    { intros x Hx. unfold Microgame.dropNth in Hx.
      apply in_app_or in Hx as [Hx | Hx].
      - rewrite <- (firstn_skipn k sg). apply in_or_app. now left.
      - rewrite <- (firstn_skipn (S k) sg). apply in_or_app. now right. }
    destruct (mounted w) eqn:Hm.
    + constructor; cbn [container signals]; [| |auto].
      * rewrite (call_complete _ _ _ Hm).
        destruct (5 <=? currentLevel (state (closure s))); cbn; lia.
      * rewrite (call_complete _ _ _ Hm).
        destruct (Z.leb_spec 5 (currentLevel (state (closure s))));
          cbn [levelResults gameState currentLevel].
        -- intros [Hn | H5]; [congruence|].
           destruct (Hout (or_intror H5)) as (rs & last & Hlen & Hrs & E & Hlast).
           exists rs, last. repeat split; auto.
           destruct Hlast as [-> | [_ Ht]]; auto.
        -- intros _. rewrite E0.
           destruct (set_ongoing rs0 defaultResult
                       {| completed := true; skipped := false;
                          timeSpent := sinceStart (state (closure s)) now |}
                       (currentLevel (state (closure s))) Hlen0 Hrs0
                       (unskipped_done _) ltac:(lia)) as (rs' & Hlen' & Hrs' & ->).
           exists rs', defaultResult. auto.
    + constructor; cbn [container signals]; rewrite ?(call_unmounted _ _ _ Hm); auto.
Qed.

Lemma play_sound (evs : list Moment) :
  forall f f', Sound f -> play f evs = Some f' -> Sound f'.
Proof.
  induction evs as [|ev evs IH]; intros f f' Hf H; cbn in H.
  - now injection H as <-.
  - destruct (advance f ev) as [f1|] eqn:E; [|discriminate H].
    eapply IH; [|exact H]. eapply advance_sound; eauto.
Qed.

Lemma reachable_sound (evs : list Moment) (f : Stage) :
  play initialStage evs = Some f -> Sound f.
Proof. apply play_sound, sound_initial. Qed.


Ltac performed evs :=
  let r := eval vm_compute in (play initialStage evs) in
  match r with
  | Some ?f =>
      assert (Hplay : play initialStage evs = Some f) by (vm_compute; reflexivity);
      exists f; split; [exact Hplay|]
  end.

Ltac performed_then evs ev :=
  let r := eval vm_compute in (play initialStage evs) in
  match r with
  | Some ?f =>
      let r' := eval vm_compute in (advance f ev) in
      match r' with
      | Some ?f' =>
          assert (Hplay : play initialStage evs = Some f) by (vm_compute; reflexivity);
          assert (Hadvance : advance f ev = Some f') by (vm_compute; reflexivity);
          exists f, f'; split; [exact Hplay|]; split; [exact Hadvance|]
      end
  end.

(** ** The level index *)

(** C4.  What the code does with the level index, completion signals of
    earlier renders included.  A click or a signal handled while playing
    calls the handler of a render [r]: when the index of [r] is below 5 the
    index of the state goes up by exactly one and the game goes on,
    otherwise the index stays and the game is completed.
    For a click [r] is the latest render, so completing or skipping level 5
    does not raise the index.  For a signal [r] is the render of the solving
    tap: when the level has been left since, the signal raises the index
    again, and from 5 it raises it to 6 while the game goes on.  The index
    passes 5 in no other way.  It is at least 1, and only the restart and
    the start, which set it to 1, lower it. *)
Theorem level_progress (evs : list Moment) (f f' : Stage) (ev : Moment) :
  play initialStage evs = Some f ->
  advance f ev = Some f' ->
  let s := state (render (container f)) in
  let s' := state (render (container f')) in
  (forall r : Render,
     handler f (move ev) = Some r ->
     mounted (container f) = true ->
     gameState s = GameState.playing ->
     (currentLevel (state r) < 5 ->
      currentLevel s' = currentLevel s + 1 /\ gameState s' = GameState.playing) /\
     (5 <= currentLevel (state r) ->
      currentLevel s' = currentLevel s /\ gameState s' = GameState.completed)) /\
  (currentLevel s <= 5 -> 5 < currentLevel s' ->
   exists (k : nat) (signal : Signal),
     move ev = Arrive k /\ nth_error (signals f) k = Some signal /\
     currentLevel (state (closure signal)) < 5 /\
     currentLevel s = 5 /\ currentLevel s' = 6) /\
  (move ev <> Container Restart -> move ev <> Container Start ->
   currentLevel s <= currentLevel s') /\
  (move ev = Container Restart \/ move ev = Container Start -> currentLevel s' = 1) /\
  1 <= currentLevel s.
Proof.
  intros Hplay H. cbv zeta.
  pose proof (reachable_sound _ _ Hplay) as [Hl _ _].
  destruct f as [w sg], ev as [now m]. cbn [container signals move] in *.
  unfold advance in H. cbn [move instant container signals] in H.
  destruct m as [a | | k].
  - (* the container *)
    destruct (step w (event now a)) as [w'|] eqn:Hs; [|discriminate H].
    injection H as <-. pose proof (step_state _ _ _ Hs) as Hst.
    cbn [action time event container] in *.
    destruct a; cbn [handler container].
    + (* Start *)
      rewrite Hst. cbn [currentLevel].
      split; [discriminate|]. split; [lia|]. split; [congruence|]. auto.
    + (* Complete *)
      destruct Hst as [Hp ->]. apply phaseIs_true in Hp as [Hm Hg].
      rewrite (call_complete _ _ _ Hm).
      destruct (Z.leb_spec 5 (currentLevel (state (render w))));
        cbn [currentLevel gameState]; (split; [|split; [|split; [|split]]]);
        try lia; try (intros [? | ?]; discriminate).
      * intros r [= <-] _ _. split; [lia | auto].
      * intros r [= <-] _ _. split; [auto | lia].
    + (* Skip *)
      destruct Hst as [Hp ->]. apply phaseIs_true in Hp as [Hm Hg].
      rewrite (call_skip _ _ Hm).
      destruct (Z.leb_spec 5 (currentLevel (state (render w))));
        cbn [currentLevel gameState]; (split; [|split; [|split; [|split]]]);
        try lia; try (intros [? | ?]; discriminate).
      * intros r [= <-] _ _. split; [lia | auto].
      * intros r [= <-] _ _. split; [auto | lia].
    + (* Restart *)
      rewrite Hst. cbn [currentLevel initialState].
      split; [discriminate|]. split; [lia|]. split; [congruence|]. auto.
    + (* Timeout *)
      assert (currentLevel (state (render w')) = currentLevel (state (render w))) as ->
        by (destruct Hst as [-> | ->]; reflexivity).
      split; [discriminate|]. split; [lia|]. split; [lia|].
      split; [intros [? | ?]; discriminate | exact Hl].
    + (* Unmount *)
      rewrite Hst.
      split; [discriminate|]. split; [lia|]. split; [lia|].
      split; [intros [? | ?]; discriminate | exact Hl].
  - (* the solving tap *)
    destruct (now <? clock w); [discriminate H|].
    destruct (onScreen w) as [e|]; [|discriminate H].
    injection H as <-. cbn [container render handler].
    split; [discriminate|]. split; [lia|]. split; [lia|].
    split; [intros [? | ?]; discriminate | exact Hl].
  - (* a signal *)
    destruct (nth_error sg k) as [sig|] eqn:Hk; [|discriminate H].
    destruct ((now <? clock w) || (now <? arrival sig)); [discriminate H|].
    injection H as <-. cbn [container signals handler]. rewrite Hk. cbn [option_map].
    destruct (mounted w) eqn:Hm.
    + rewrite (call_complete _ _ _ Hm).
      destruct (Z.leb_spec 5 (currentLevel (state (closure sig))));
        cbn [currentLevel gameState]; (split; [|split; [|split; [|split]]]);
        try lia; try (intros [? | ?]; discriminate).
      * intros r [= <-] _ _. split; [lia | auto].
      * intros r [= <-] _ Hg. split; [auto | lia].
      * intros Hle Hgt. exists k, sig. repeat split; auto; lia.
    + rewrite (call_unmounted _ _ _ Hm).
      split; [intros r _ Hf; discriminate Hf|].
      split; [lia|]. split; [lia|].
      split; [intros [? | ?]; discriminate | exact Hl].
Qed.

(** Level 4, a SequenceMemory, is solved at 12400 and skipped at 12600; its
    signal arrives at 12900, when level 5 is on screen: the game goes on at
    index 6, where there is no microgame. *)
Lemma level_progress_late_signal :
  exists f f',
    play initialStage
      [moment 1000 (Container Start);
       moment 2000 Solve; moment 2300 (Arrive 0);
       moment 6000 Solve; moment 6500 (Arrive 0);
       moment 7000 Solve; moment 7300 (Arrive 0);
       moment 12300 (Container (Timeout 4%positive));
       moment 12400 Solve; moment 12600 (Container Skip)] = Some f /\
    advance f (moment 12900 (Arrive 0)) = Some f' /\
    gameState (state (render (container f))) = GameState.playing /\
    currentLevel (state (render (container f))) = 5 /\
    gameState (state (render (container f'))) = GameState.playing /\
    currentLevel (state (render (container f'))) = 6 /\
    GameView.renderCurrentMicrogame (state (render (container f'))) = None.
Proof.
  performed_then
    [moment 1000 (Container Start);
     moment 2000 Solve; moment 2300 (Arrive 0);
     moment 6000 Solve; moment 6500 (Arrive 0);
     moment 7000 Solve; moment 7300 (Arrive 0);
     moment 12300 (Container (Timeout 4%positive));
     moment 12400 Solve; moment 12600 (Container Skip)]
    (moment 12900 (Arrive 0)).
  destruct (level_progress _ _ _ _ Hplay Hadvance) as (H & _).
  cbv zeta in H.
  match type of H with
  | forall r, handler ?f ?m = Some r -> _ =>
      let c := eval vm_compute in (handler f m) in
      match c with
      | Some ?r =>
          destruct (H r ltac:(vm_compute; reflexivity) eq_refl eq_refl) as [Hnext _]
      end
  end.
  destruct (Hnext ltac:(vm_compute; reflexivity)) as [Hlevel Hgame].
  split; [reflexivity|]. split; [reflexivity|]. split; [exact Hgame|].
  split; [exact Hlevel | reflexivity].
Defined.


(** ** The microgame on screen *)

(** X5.  [renderCurrentMicrogame] in the states of a run, completion
    signals of earlier renders included: while the index is at most 5 it
    renders ColorMatch at an odd index and SequenceMemory at an even one,
    with the index as key and as level; once a late signal has taken the
    index past 5 it has nothing to render.  For any state it has nothing
    exactly when the index is outside 1..5. *)
Theorem microgame_on_screen (evs : list Moment) (f : Stage) :
  play initialStage evs = Some f ->
  let s := state (render (container f)) in
  (currentLevel s <= 5 ->
   GameView.renderCurrentMicrogame s
   = Some {| GameView.type := if Z.odd (currentLevel s)
                              then GameView.ColorMatch else GameView.SequenceMemory;
             GameView.key := currentLevel s;
             GameView.level := currentLevel s |}) /\
  (5 < currentLevel s -> GameView.renderCurrentMicrogame s = None) /\
  (forall s0 : GameContainerState,
     GameView.renderCurrentMicrogame s0 = None <-> ~ 1 <= currentLevel s0 <= 5).
Proof.
  intros Hplay. cbv zeta.
  pose proof (level_positive _ (reachable_sound _ _ Hplay)) as Hl.
  assert (forall s0 : GameContainerState,
            GameView.renderCurrentMicrogame s0 = None <-> ~ 1 <= currentLevel s0 <= 5)
    as Hnone.
  { intros s0. split.
    - intros E [H1 H5]. unfold GameView.renderCurrentMicrogame in E.
      destruct (Z.ltb_spec (currentLevel s0 - 1) 0); [lia|].
      destruct (nth_error GameView.games (Z.to_nat (currentLevel s0 - 1))) eqn:En;
        [discriminate|].
      apply nth_error_None in En. cbn in En. lia.
    - intros Hn.
      destruct (GameView.renderCurrentMicrogame s0) as [e|] eqn:E; [|reflexivity].
      apply microgame_level in E. contradiction. }
  split; [|split; [|exact Hnone]].
  - intros H5. unfold GameView.renderCurrentMicrogame.
    assert (currentLevel (state (render (container f))) = 1 \/
            currentLevel (state (render (container f))) = 2 \/
            currentLevel (state (render (container f))) = 3 \/
            currentLevel (state (render (container f))) = 4 \/
            currentLevel (state (render (container f))) = 5) as Hc by lia.
    destruct Hc as [E | [E | [E | [E | E]]]]; rewrite E; reflexivity.
  - intros H5. apply Hnone. lia.
Qed.

(** Level 2 is a SequenceMemory with key 2. *)
Lemma microgame_on_screen_level_2 :
  exists f,
    play initialStage
      [moment 1000 (Container Start); moment 2000 Solve; moment 2300 (Arrive 0)]
    = Some f /\
    GameView.renderCurrentMicrogame (state (render (container f)))
    = Some {| GameView.type := GameView.SequenceMemory;
              GameView.key := 2; GameView.level := 2 |}.
Proof.
  performed [moment 1000 (Container Start); moment 2000 Solve; moment 2300 (Arrive 0)].
  destruct (microgame_on_screen _ _ Hplay) as [H _].
  exact (H ltac:(vm_compute; discriminate)).
Defined.

(** ** The progress indicator while playing *)

Lemma status_before (L i : Z) (a : Js.Array LevelResult) (r : LevelResult) :
  i + 1 < L -> Js.get a i = Some r -> unskipped r ->
  ProgressTracker.getLevelStatus L a i = Some "completed"%string \/
  ProgressTracker.getLevelStatus L a i = Some "pending"%string.
Proof.
  intros Hi E Hr. unfold ProgressTracker.getLevelStatus.
  destruct (Z.ltb_spec (i + 1) L); [|lia]. rewrite E.
  destruct Hr as [-> | [t ->]]; cbn; auto.
Qed.

Lemma status_from (L i : Z) (a : Js.Array LevelResult) :
  L <= i + 1 ->
  ProgressTracker.getLevelStatus L a i
  = Some (if i + 1 =? L then "current"%string else "pending"%string).
Proof.
  intros Hi. unfold ProgressTracker.getLevelStatus.
  destruct (Z.ltb_spec (i + 1) L); [lia|].
  destruct (i + 1 =? L); reflexivity.
Qed.

(** X2.  While playing, in every run, completion signals of earlier
    renders included, each of the five slots of the progress indicator has
    a status: a slot before the current level reads completed or pending,
    the slot of the current level reads current, a later slot reads
    pending.  No slot reads skipped: a level that was skipped reads
    completed. *)
Theorem tracker_while_playing (evs : list Moment) (f : Stage) :
  play initialStage evs = Some f ->
  gameState (state (render (container f))) = GameState.playing ->
  let L := currentLevel (state (render (container f))) in
  Forall2
    (fun (index : Z) (slot : option string) =>
       exists status : string,
         slot = Some status /\ status <> "skipped"%string /\
         (index + 1 < L -> status = "completed"%string \/ status = "pending"%string) /\
         (index + 1 = L -> status = "current"%string) /\
         (L < index + 1 -> status = "pending"%string))
    [0; 1; 2; 3; 4]
    (ProgressTracker.slots L (levelResults (state (render (container f))))).
Proof.
  intros Hplay Hg. cbv zeta.
  destruct (reachable_sound _ _ Hplay) as [Hl Hout _].
  destruct Hout as (rs & last & Hlen & Hrs & E & Hlast); [left; congruence|].
  destruct Hlast as [-> | [Hc _]]; [|congruence].
  rewrite E. clear E.
  destruct rs as [|a [|b [|c [|d [|e rs]]]]]; try discriminate Hlen.
  inversion Hrs as [|? ? Ha Hrs1]; subst. inversion Hrs1 as [|? ? Hb Hrs2]; subst.
  inversion Hrs2 as [|? ? Hc Hrs3]; subst. inversion Hrs3 as [|? ? Hd _]; subst.
  assert (unskipped defaultResult) as He by now left.
  set (L := currentLevel (state (render (container f)))) in *.
  set (results := map Some [a; b; c; d] ++ [Some defaultResult]).
  assert (forall i r, Js.get results i = Some r -> unskipped r ->
            exists status : string,
              ProgressTracker.getLevelStatus L results i = Some status /\
              status <> "skipped"%string /\
              (i + 1 < L -> status = "completed"%string \/ status = "pending"%string) /\
              (i + 1 = L -> status = "current"%string) /\
              (L < i + 1 -> status = "pending"%string)) as Hslot.
  { intros i r Er Hr. destruct (Z.lt_ge_cases (i + 1) L) as [Hlt | Hge].
    - destruct (status_before L i results r Hlt Er Hr) as [-> | ->]; eexists;
        (split; [reflexivity|]); (split; [discriminate|]);
        repeat split; auto; lia.
    - rewrite (status_from L i results Hge).
      destruct (Z.eqb_spec (i + 1) L); eexists;
        (split; [reflexivity|]); (split; [discriminate|]);
        repeat split; auto; lia. }
  unfold ProgressTracker.slots. cbn [map].
  repeat constructor.
  - apply (Hslot 0 a); [reflexivity | exact Ha].
  - apply (Hslot 1 b); [reflexivity | exact Hb].
  - apply (Hslot 2 c); [reflexivity | exact Hc].
  - apply (Hslot 3 d); [reflexivity | exact Hd].
  - apply (Hslot 4 defaultResult); [reflexivity | exact He].
Qed.

(** SequenceMemory at level 2 signals twice: the second signal arrives
    when level 3 is on screen and takes the game to level 4, so the slot of
    level 3 reads pending. *)
Lemma tracker_after_double_signal :
  exists f,
    play initialStage
      [moment 1000 (Container Start); moment 2000 Solve; moment 2300 (Arrive 0);
       moment 6000 Solve; moment 6400 Solve;
       moment 6500 (Arrive 0); moment 6900 (Arrive 0)] = Some f /\
    currentLevel (state (render (container f))) = 4 /\
    ProgressTracker.slots 4 (levelResults (state (render (container f))))
    = [Some "completed"; Some "completed"; Some "pending";
       Some "current"; Some "pending"]%string /\
    Forall2 (fun (index : Z) (slot : option string) => slot <> Some "skipped"%string)
      [0; 1; 2; 3; 4]
      (ProgressTracker.slots 4 (levelResults (state (render (container f))))).
Proof.
  performed [moment 1000 (Container Start); moment 2000 Solve; moment 2300 (Arrive 0);
             moment 6000 Solve; moment 6400 Solve;
             moment 6500 (Arrive 0); moment 6900 (Arrive 0)].
  split; [reflexivity|]. split; [reflexivity|].
  pose proof (tracker_while_playing _ _ Hplay eq_refl) as H. cbv zeta in H.
  eapply Forall2_impl; [|exact H].
  intros index slot (status & -> & Hs & _). congruence.
Defined.

(** ** The results view after a game *)

Lemma unskipped_row (r : LevelResult) :
  unskipped r ->
  skipped r = false /\
  (ResultsScreen.outcomeText r = "✓ Completed"%string \/
   ResultsScreen.outcomeText r = "○ Not attempted"%string).
Proof. intros [-> | [t ->]]; cbn; auto. Qed.

(** X1.  The results view of every finished game in which the index has
    not passed 5, completion signals of earlier renders included: it has
    five lines; none of the levels 1 to 4
    is shown as skipped, each is shown as completed or as not attempted,
    also when it was skipped; level 5 is never shown as completed, it is
    shown as not attempted or as skipped.  The view counts at most four
    completed levels and at most one skipped level, so the penalties it
    shows are 0 or 30000 ms. *)
Theorem results_after_game (evs : list Moment) (f : Stage) :
  play initialStage evs = Some f ->
  gameState (state (render (container f))) = GameState.completed ->
  currentLevel (state (render (container f))) <= 5 ->
  let levelResults := levelResults (state (render (container f))) in
  exists (rows : list string) (fifth : string) (n : Z),
    ResultsScreen.breakdown levelResults = Some (rows ++ [fifth]) /\
    List.length rows = 4%nat /\
    Forall (fun row => row = "✓ Completed"%string \/ row = "○ Not attempted"%string)
      rows /\
    ResultsScreen.completedLevels levelResults = Some n /\ 0 <= n <= 4 /\
    ((fifth = "○ Not attempted"%string /\
      ResultsScreen.skippedLevels levelResults = Some 0 /\
      ResultsScreen.totalPenalties levelResults = Some 0) \/
     (fifth = "⏭ Skipped"%string /\
      ResultsScreen.skippedLevels levelResults = Some 1 /\
      ResultsScreen.totalPenalties levelResults = Some 30000)).
Proof.
  intros Hplay Hg H5. cbv zeta.
  destruct (reachable_sound _ _ Hplay) as [_ Hout _].
  destruct (Hout (or_intror H5)) as (rs & last & Hlen & Hrs & E & Hlast).
  rewrite E. clear E.
  destruct rs as [|a [|b [|c [|d [|e rs]]]]]; try discriminate Hlen.
  inversion Hrs as [|? ? Ha Hrs1]; subst. inversion Hrs1 as [|? ? Hb Hrs2]; subst.
  inversion Hrs2 as [|? ? Hc Hrs3]; subst. inversion Hrs3 as [|? ? Hd _]; subst.
  apply unskipped_row in Ha as [Sa Ta], Hb as [Sb Tb], Hc as [Sc Tc], Hd as [Sd Td].
  exists [ResultsScreen.outcomeText a; ResultsScreen.outcomeText b;
          ResultsScreen.outcomeText c; ResultsScreen.outcomeText d],
         (ResultsScreen.outcomeText last),
         (Z.of_nat (List.length (filter completed [a; b; c; d]))).
  split; [reflexivity|]. split; [reflexivity|].
  split; [repeat (apply Forall_cons; [assumption|]); apply Forall_nil|].
  assert (completed last = false) as Cl
    by (destruct Hlast as [-> | (_ & t & ->)]; reflexivity).
  split.
  { unfold ResultsScreen.completedLevels. cbn [map app ResultsScreen.elements filter].
    rewrite Cl. destruct (completed a), (completed b), (completed c), (completed d);
      reflexivity. }
  split.
  { cbn [filter]. destruct (completed a), (completed b), (completed c), (completed d);
      cbn; lia. }
  unfold ResultsScreen.totalPenalties, ResultsScreen.skippedLevels.
  cbn [map app ResultsScreen.elements filter]. rewrite Sa, Sb, Sc, Sd.
  destruct Hlast as [-> | (_ & t & ->)]; [left | right]; repeat split.
Qed.

(** The double signal of level 2 again, and the game played to its end: the
    view counts three completed levels and shows level 3 as not attempted. *)
Lemma results_after_double_signal :
  exists f,
    play initialStage
      [moment 1000 (Container Start); moment 2000 Solve; moment 2300 (Arrive 0);
       moment 6000 Solve; moment 6400 Solve;
       moment 6500 (Arrive 0); moment 6900 (Arrive 0);
       moment 11000 Solve; moment 11500 (Arrive 0);
       moment 12000 Solve; moment 12300 (Arrive 0)] = Some f /\
    ResultsScreen.breakdown (levelResults (state (render (container f))))
    = Some ["✓ Completed"; "✓ Completed"; "○ Not attempted"; "✓ Completed";
            "○ Not attempted"]%string /\
    ResultsScreen.completedLevels (levelResults (state (render (container f)))) = Some 3 /\
    ResultsScreen.totalPenalties (levelResults (state (render (container f)))) = Some 0.
Proof.
  performed [moment 1000 (Container Start); moment 2000 Solve; moment 2300 (Arrive 0);
             moment 6000 Solve; moment 6400 Solve;
             moment 6500 (Arrive 0); moment 6900 (Arrive 0);
             moment 11000 Solve; moment 11500 (Arrive 0);
             moment 12000 Solve; moment 12300 (Arrive 0)].
  split; [reflexivity|]. split; [reflexivity|].
  destruct (results_after_game _ _ Hplay eq_refl ltac:(vm_compute; discriminate))
    as (rows & fifth & n & Hb & _ & _ & _ & _ & [(Hf & _ & Hp) | (Hf & _ & _)]).
  - exact Hp.
  - exfalso. subst fifth. cbv zeta in Hb.
    apply (f_equal (fun o => match o with
                             | Some l => last l ""%string
                             | None => ""%string
                             end)) in Hb.
    rewrite last_last in Hb. vm_compute in Hb. discriminate Hb.
Defined.

End PlayFacts.

(** * The time display *)
Module FormatFacts.
Import ResultsScreen.

(** ** Strings *)

Lemma length_append (s t : string) :
  String.length (String.append s t) = (String.length s + String.length t)%nat.
Proof. induction s as [|c s IH]; cbn; [reflexivity | now rewrite IH]. Qed.

Lemma append_inv_length (s s' t t' : string) :
  String.append s t = String.append s' t' ->
  String.length t = String.length t' ->
  s = s' /\ t = t'.
Proof.
  revert s'. induction s as [|c s IH]; intros [|c' s'] E Hlen; cbn in *.
  - auto.
  - subst t. cbn in Hlen. rewrite length_append in Hlen. lia.
  - subst t'. cbn in Hlen. rewrite length_append in Hlen. lia.
  - injection E as -> E. destruct (IH s' E Hlen) as [-> ->]. auto.
Qed.

(** ** [toString] *)

Lemma to_int_proper (n : Z) : Z.to_int n <> Decimal.Pos Decimal.Nil /\
                              Z.to_int n <> Decimal.Neg Decimal.Nil.
Proof.
  destruct n as [|p|p]; cbn; split; try discriminate;
    intros [= E]; now apply (Unsigned.to_uint_nonnil p).
Qed.

(** Reading the string back gives the number. *)
Lemma toString_read (n : Z) :
  option_map Z.of_int (NilZero.int_of_string (toString n)) = Some n.
Proof.
  unfold toString. destruct (to_int_proper n) as [H1 H2].
  rewrite (NilZero.isi _ H1 H2). cbn. now rewrite DecimalZ.of_to.
Qed.

Lemma small_cases (n : Z) :
  0 <= n < 100 -> In n (map Z.of_nat (seq 0 100)).
Proof.
  intros H. apply in_map_iff. exists (Z.to_nat n). split; [lia|].
  apply in_seq. lia.
Qed.

(** A number of at most one character is a digit. *)
Lemma toString_short (n : Z) :
  (String.length (toString n) <= 1)%nat -> 0 <= n < 10.
Proof.
  intros Hlen. pose proof (toString_read n) as Hr.
  destruct (toString n) as [|c [|c' s]]; cbn in Hlen; [discriminate Hr| |lia].
  destruct c as [[] [] [] [] [] [] [] []]; cbn in Hr; try discriminate Hr;
    injection Hr as <-; lia.
Qed.

Lemma toString_length_small (n : Z) :
  0 <= n < 100 ->
  String.length (toString n) = if n <? 10 then 1%nat else 2%nat.
Proof.
  intros H.
  assert (forallb (fun n => Nat.eqb (String.length (toString n))
                              (if n <? 10 then 1 else 2))
            (map Z.of_nat (seq 0 100)) = true) as Hall by (vm_compute; reflexivity).
  rewrite forallb_forall in Hall. specialize (Hall n (small_cases n H)).
  now apply Nat.eqb_eq in Hall.
Qed.

(** ** [padStart] *)

Lemma padStart_long (s : string) (c : ascii) :
  (2 <= String.length s)%nat -> padStart s 2 c = s.
Proof.
  intros H. unfold padStart.
  replace (2 - String.length s)%nat with 0%nat by lia. reflexivity.
Qed.

Lemma length_padStart (s : string) (c : ascii) :
  String.length (padStart s 2 c) = Nat.max 2 (String.length s).
Proof.
  unfold padStart. rewrite length_append.
  assert (forall l, String.length (string_of_list_ascii l) = List.length l) as Hl
    by (induction l; cbn; congruence).
  rewrite Hl, repeat_length. lia.
Qed.

Lemma two_digits (n : Z) :
  0 <= n < 100 -> String.length (padStart (toString n) 2 "0") = 2%nat.
Proof.
  intros H. rewrite length_padStart, (toString_length_small n H).
  destruct (n <? 10); reflexivity.
Qed.

(** Reading a padded number back gives the number. *)
Lemma padded_read (n : Z) :
  0 <= n ->
  option_map Z.of_int (NilZero.int_of_string (padStart (toString n) 2 "0")) = Some n.
Proof.
  intros Hn. destruct (Z.lt_ge_cases n 10) as [Hlt | Hge].
  - assert (forallb (fun n => match option_map Z.of_int
                                      (NilZero.int_of_string
                                         (padStart (toString n) 2 "0")) with
                              | Some m => m =? n
                              | None => false
                              end)
              (map Z.of_nat (seq 0 100)) = true) as Hall by (vm_compute; reflexivity).
    rewrite forallb_forall in Hall.
    specialize (Hall n (small_cases n ltac:(lia))).
    destruct (option_map _ _) as [m|]; [|discriminate Hall].
    apply Z.eqb_eq in Hall. now subst.
  - rewrite padStart_long; [apply toString_read|].
    destruct (Nat.le_gt_cases 2 (String.length (toString n))) as [H | H]; [exact H|].
    assert (0 <= n < 10) by (apply toString_short; lia). lia.
Qed.

Lemma padded_inj (a b : Z) :
  0 <= a -> 0 <= b ->
  padStart (toString a) 2 "0" = padStart (toString b) 2 "0" -> a = b.
Proof.
  intros Ha Hb E. pose proof (padded_read a Ha) as Ra.
  rewrite E, (padded_read b Hb) in Ra. congruence.
Qed.

(** ** [formatTime] *)

(** X7.  For a non-negative number of milliseconds [formatTime] prints the
    minutes, a colon, two digits of seconds, a point and two digits of
    hundredths.  The minutes are padded to two digits and never cut: the
    text has eight characters below 100 minutes and more from there on. *)
Theorem formatTime_length (milliseconds : Z) :
  0 <= milliseconds ->
  (8 <= String.length (formatTime milliseconds))%nat /\
  (milliseconds < 6000000 -> String.length (formatTime milliseconds) = 8%nat) /\
  (6000000 <= milliseconds ->
   String.length (formatTime milliseconds)
   = (String.length (toString (milliseconds / 60000)) + 6)%nat).
Proof.
  intros Hms. unfold formatTime.
  assert (0 <= milliseconds / 1000) as Hsec by (apply Z.div_pos; lia).
  assert (0 <= Z.rem (milliseconds / 1000) 60 < 60) as Hs
    by (rewrite Z.rem_mod_nonneg by lia; apply Z.mod_pos_bound; lia).
  assert (0 <= Z.rem milliseconds 1000 / 10 < 100) as Hh
    by (rewrite Z.rem_mod_nonneg by lia; Z.to_euclidean_division_equations; lia).
  assert (0 <= milliseconds / 60000) as Hm by (apply Z.div_pos; lia).
  assert (milliseconds / 1000 / 60 = milliseconds / 60000) as Em
    by (rewrite Z.div_div by lia; reflexivity).
  rewrite Em.
  rewrite length_append. cbn [String.length]. rewrite length_append.
  cbn [String.length]. rewrite (two_digits (Z.rem (milliseconds / 1000) 60)) by lia.
  rewrite (two_digits _ Hh).
  rewrite length_padStart.
  split; [lia|]. split.
  - intros Hlt.
    assert (milliseconds / 60000 < 100) by (apply Z.div_lt_upper_bound; lia).
    rewrite (toString_length_small (milliseconds / 60000)) by lia.
    destruct (milliseconds / 60000 <? 10); reflexivity.
  - intros Hge.
    assert (2 <= String.length (toString (milliseconds / 60000)))%nat.
    { destruct (Nat.le_gt_cases 2 (String.length (toString (milliseconds / 60000))))
        as [H | H]; [exact H|].
      assert (0 <= milliseconds / 60000 < 10) by (apply toString_short; lia).
      assert (100 <= milliseconds / 60000) by (apply Z.div_le_lower_bound; lia). lia. }
    lia.
Qed.

(** One minute, five seconds and 430 ms. *)
Lemma formatTime_length_65437 :
  formatTime 65437 = "01:05.43"%string /\
  String.length (formatTime 65437) = 8%nat.
Proof.
  split; [reflexivity|].
  destruct (formatTime_length 65437 ltac:(lia)) as (_ & H & _).
  exact (H ltac:(lia)).
Defined.

(** X8.  [formatTime] shows a non-negative time to the hundredth of a second
    and no further: two times print the same text exactly when they agree
    up to their last digit. *)
Theorem formatTime_hundredths (a b : Z) :
  0 <= a -> 0 <= b ->
  (formatTime a = formatTime b <-> a / 10 = b / 10).
Proof.
  intros Ha Hb.
  assert (forall x, 0 <= x ->
            0 <= x / 1000 / 60 /\
            0 <= Z.rem (x / 1000) 60 < 60 /\
            0 <= Z.rem x 1000 / 10 < 100 /\
            x / 10 = 6000 * (x / 1000 / 60) + 100 * Z.rem (x / 1000) 60
                     + Z.rem x 1000 / 10) as Hparts.
  { intros x Hx.
    assert (0 <= x / 1000) by (apply Z.div_pos; lia).
    rewrite !Z.rem_mod_nonneg by lia.
    Z.to_euclidean_division_equations; lia. }
  destruct (Hparts a Ha) as (Am & As & Ah & Ea).
  destruct (Hparts b Hb) as (Bm & Bs & Bh & Eb).
  split.
  - unfold formatTime. intros E.
    apply append_inv_length in E.
    2:{ cbn [String.length]. rewrite !length_append. cbn [String.length].
        rewrite !two_digits by lia. reflexivity. }
    destruct E as [Em E]. injection E as E.
    apply append_inv_length in E.
    2:{ cbn [String.length]. rewrite !two_digits by lia. reflexivity. }
    destruct E as [Es E]. injection E as Eh.
    apply padded_inj in Em; [|lia|lia].
    apply padded_inj in Es; [|lia|lia].
    apply padded_inj in Eh; [|lia|lia].
    lia.
  - intros E. unfold formatTime.
    assert (a / 1000 = b / 1000) as E1.
    { replace (a / 1000) with (a / 10 / 100) by (rewrite Z.div_div by lia; reflexivity).
      replace (b / 1000) with (b / 10 / 100) by (rewrite Z.div_div by lia; reflexivity).
      now rewrite E. }
    assert (Z.rem a 1000 / 10 = Z.rem b 1000 / 10) as E2.
    { rewrite !Z.rem_mod_nonneg by lia.
      Z.to_euclidean_division_equations; lia. }
    now rewrite E1, E2.
Qed.

(** 65430 and 65439 print alike, 65440 does not. *)
Lemma formatTime_hundredths_65430 :
  formatTime 65430 = formatTime 65439 /\ formatTime 65439 <> formatTime 65440.
Proof.
  split.
  - apply (formatTime_hundredths 65430 65439); [lia | lia | reflexivity].
  - intros E. apply (formatTime_hundredths 65439 65440) in E; [|lia|lia].
    vm_compute in E. discriminate E.
Defined.

End FormatFacts.

(** * The puzzles the microgames generate *)
Module PuzzleFacts.
Import Microgame MicrogameFacts.

(** ** DirectionMatch *)
Section DirectionPuzzle.
Import DirectionMatch.

Lemma Direction_eqb_eq (a b : Direction) : Direction_eqb a b = true <-> a = b.
Proof. destruct a, b; cbn; split; congruence. Qed.

Lemma nth_error_mapIndexed {A B : Type} (f : A -> Z -> B) (l : list A) :
  forall (k : Z) (n : nat),
    nth_error (mapIndexed f l k) n
    = option_map (fun x => f x (k + Z.of_nat n)) (nth_error l n).
Proof.
  induction l as [|x l IH]; intros k [|n]; cbn [mapIndexed nth_error option_map];
    try reflexivity.
  - now rewrite Z.add_0_r.
  - rewrite IH. destruct (nth_error l n); cbn; [|reflexivity].
    do 2 f_equal. lia.
Qed.

Lemma isTargetAt_spec (target : Direction) (shuffled : list Direction) (j : Z) :
  isTargetAt (generateGame target shuffled) j = true
  <-> 0 <= j /\ nth_error shuffled (Z.to_nat j) = Some target.
Proof.
  unfold isTargetAt, generateGame. cbn [arrows].
  rewrite nth_error_mapIndexed.
  destruct (Z.leb_spec 0 j); cbn [andb]; [|split; [discriminate | lia]].
  destruct (nth_error shuffled (Z.to_nat j)) as [d|]; cbn [option_map isTarget].
  - rewrite Direction_eqb_eq. split; [intros ->; auto | intros [_ [= ->]]; reflexivity].
  - split; [discriminate | intros [_ [=]]].
Qed.

(** X10.  When the shuffle leaves the four directions in some order, the
    generated puzzle has exactly one target arrow, and a tap on it, whenever
    it comes, is followed 500 ms later by the one call of [onComplete]. *)
Theorem direction_match_one_target (target : Direction) (shuffled : list Direction) :
  Permutation ALL_DIRECTIONS shuffled ->
  exists index,
    0 <= index < 4 /\
    (forall j, isTargetAt (generateGame target shuffled) j = true <-> j = index) /\
    forall t0 t, t0 <= t ->
      option_map calls
        (run (instance target shuffled) (mountAt (instance target shuffled) t0)
           [Tap t index; Fire (t + 500) 0])
      = Some 1%nat.
Proof.
  intros Hperm.
  assert (NoDup shuffled) as Hnd.
  { eapply Permutation_NoDup; [exact Hperm|].
    repeat constructor; cbn; intuition discriminate. }
  assert (List.length shuffled = 4%nat) as Hlen
    by (rewrite <- (Permutation_length Hperm); reflexivity).
  assert (In target shuffled) as Hin.
  { eapply Permutation_in; [exact Hperm|]. destruct target; cbn; auto. }
  destruct (In_nth_error _ _ Hin) as [n Hn].
  assert (n < 4)%nat as Hn4 by (rewrite <- Hlen; apply nth_error_Some; congruence).
  exists (Z.of_nat n). split; [lia|]. split.
  - intros j. rewrite isTargetAt_spec. split.
    + intros [Hj Ej].
      assert (Z.to_nat j = n) as E.
      { apply (proj1 (NoDup_nth_error shuffled) Hnd).
        - apply nth_error_Some. congruence.
        - congruence. }
      lia.
    + intros ->. rewrite Nat2Z.id. split; [lia | exact Hn].
  - intros t0 t Ht.
    assert (isTargetAt (generateGame target shuffled) (Z.of_nat n) = true) as Hi
      by (apply isTargetAt_spec; rewrite Nat2Z.id; split; [lia | exact Hn]).
    unfold isTargetAt in Hi. cbn [run step mountAt instance mount tap fst snd
                                   component clock mounted queue schedule map].
    destruct (Z.leb_spec t0 t); [|lia]. cbn [andb].
    unfold handleArrowTap. cbn [feedback generateGame].
    destruct (Z.ltb_spec (Z.of_nat n) 0); [lia|].
    destruct (Z.leb_spec 0 (Z.of_nat n)); [|lia]. cbn [andb] in Hi.
    cbn [arrows generateGame] in Hi.
    destruct (nth_error _ (Z.to_nat (Z.of_nat n))) as [arrow|]; [|discriminate Hi].
    rewrite Hi. cbn.
    destruct (Z.leb_spec t (t + 500)); [|lia]. rewrite Z.leb_refl. reflexivity.
Qed.

(** The target is down and the shuffle leaves left, up, down, right: the
    target is the arrow of index 2. *)
Lemma direction_match_one_target_down :
  exists index,
    isTargetAt (generateGame down [left; up; down; right]) index = true /\
    option_map calls
      (run (instance down [left; up; down; right])
         (mountAt (instance down [left; up; down; right]) 0)
         [Tap 1000 index; Fire 1500 0])
    = Some 1%nat.
Proof.
  assert (Permutation ALL_DIRECTIONS [left; up; down; right]) as Hperm.
  { unfold ALL_DIRECTIONS.
    apply perm_trans with [down; up; left; right]; [apply perm_swap|].
    apply perm_trans with [down; left; up; right];
      [apply perm_skip, perm_swap|].
    apply perm_trans with [left; down; up; right]; [apply perm_swap|].
    apply perm_skip, perm_swap. }
  destruct (direction_match_one_target down _ Hperm) as (index & _ & Hi & Hrun).
  exists index. split; [apply Hi; reflexivity|].
  exact (Hrun 0 1000 ltac:(lia)).
Defined.

(** [direction_match_completes_once], at a run of two wrong taps and the
    right one. *)
Lemma direction_match_completes_once_run :
  exists w,
    run (instance down [left; up; down; right])
      (mountAt (instance down [left; up; down; right]) 0)
      [Tap 1000 0; Fire 1500 0; Tap 2000 1; Fire 2500 0; Tap 3000 2; Fire 3500 0]
    = Some w /\
    (calls w <= 1)%nat.
Proof.
  eexists. split; [vm_compute; reflexivity|].
  match goal with
  | |- (calls ?w <= 1)%nat =>
      destruct (direction_match_completes_once down [left; up; down; right] 0
                  [Tap 1000 0; Fire 1500 0; Tap 2000 1; Fire 2500 0;
                   Tap 3000 2; Fire 3500 0]%nat w
                  ltac:(vm_compute; reflexivity)) as [H _]
  end.
  exact H.
Defined.

End DirectionPuzzle.

(** ** ColorMatch *)
Section ColorPuzzle.
Import ColorMatch.

Lemma COLORS_NoDup : NoDup COLORS.
Proof.
  unfold COLORS.
  repeat (constructor; [cbn; intros H; repeat destruct H as [H | H];
                        try discriminate H; try contradiction|]).
  constructor.
Qed.

(** X12.  When both random sorts only reorder their lists, the generated
    puzzle has exactly one correct option; it shows the target colour, and
    none of the three other options does. *)
Theorem color_match_one_correct (shuffled : list string)
    (arrange : list ColorOption -> list ColorOption) :
  Permutation COLORS shuffled ->
  (forall l, Permutation l (arrange l)) ->
  let g := generateGame shuffled arrange in
  List.length (options g) = 4%nat /\
  (exists index,
     0 <= index < 4 /\
     forall j, isCorrectAt g j = true <-> j = index) /\
  (forall option, In option (options g) ->
     (isCorrect option = true <-> color option = targetColor g)).
Proof.
  intros Hperm Harr. cbv zeta.
  assert (NoDup shuffled) as Hnd
    by (eapply Permutation_NoDup; [exact Hperm | apply COLORS_NoDup]).
  assert (List.length shuffled = 8%nat) as Hlen
    by (rewrite <- (Permutation_length Hperm); reflexivity).
  destruct shuffled as [|c0 [|c1 [|c2 [|c3 rest]]]]; try discriminate Hlen.
  unfold generateGame. cbn [nth skipn firstn targetColor options].
  set (base := [ {| color := c0; isCorrect := true |};
                 {| color := c1; isCorrect := false |};
                 {| color := c2; isCorrect := false |};
                 {| color := c3; isCorrect := false |} ]).
  pose proof (Harr base) as Hp.
  assert (c0 <> c1 /\ c0 <> c2 /\ c0 <> c3 /\ c1 <> c2 /\ c1 <> c3 /\ c2 <> c3)
    as (N01 & N02 & N03 & N12 & N13 & N23).
  { inversion Hnd as [|? ? H0 Hnd1]; subst.
    inversion Hnd1 as [|? ? H1 Hnd2]; subst.
    inversion Hnd2 as [|? ? H2 Hnd3]; subst.
    cbn in H0, H1, H2. intuition congruence. }
  assert (NoDup base) as Hbase.
  { unfold base.
    repeat (constructor; [cbn; intros H; repeat destruct H as [H | H];
                          try congruence; try contradiction|]).
    constructor. }
  assert (NoDup (arrange base)) as Hnd' by (eapply Permutation_NoDup; eauto).
  assert (forall option, In option (arrange base) ->
            (isCorrect option = true <-> color option = c0)) as Hcol.
  { intros option Hin. apply (Permutation_in _ (Permutation_sym Hp)) in Hin.
    unfold base in Hin. cbn in Hin.
    destruct Hin as [<- | [<- | [<- | [<- | []]]]]; cbn; split; congruence. }
  split; [rewrite <- (Permutation_length Hp); reflexivity|].
  split; [|exact Hcol].
  assert (In {| color := c0; isCorrect := true |} (arrange base)) as Hin
    by (apply (Permutation_in _ Hp); left; reflexivity).
  destruct (In_nth_error _ _ Hin) as [n Hn].
  assert (n < 4)%nat as Hn4.
  { replace 4%nat with (List.length (arrange base))
      by (rewrite <- (Permutation_length Hp); reflexivity).
    apply nth_error_Some. congruence. }
  exists (Z.of_nat n). split; [lia|].
  intros j. unfold isCorrectAt. cbn [options].
  destruct (Z.leb_spec 0 j); cbn [andb]; [|split; [discriminate | lia]].
  split.
  - destruct (nth_error (arrange base) (Z.to_nat j)) as [o|] eqn:Ej; [|discriminate].
    intros Ho.
    assert (In o (arrange base)) as Hino by (eapply nth_error_In; eauto).
    assert (o = {| color := c0; isCorrect := true |}) as ->.
    { pose proof (proj1 (Hcol o Hino) Ho) as Hc. destruct o as [oc oi].
      cbn in Ho, Hc. now subst. }
    assert (Z.to_nat j = n) as E.
    { apply (proj1 (NoDup_nth_error (arrange base)) Hnd').
      - apply nth_error_Some. congruence.
      - congruence. }
    lia.
  - intros ->. rewrite Nat2Z.id, Hn. reflexivity.
Qed.

(** The colours as declared, the options reversed: the correct option is the
    last one. *)
Lemma color_match_one_correct_reversed :
  isCorrectAt (generateGame COLORS (@rev ColorOption)) 3 = true /\
  List.length (options (generateGame COLORS (@rev ColorOption))) = 4%nat.
Proof.
  pose proof (color_match_one_correct COLORS (@rev ColorOption)
                (Permutation_refl _) (@Permutation_rev ColorOption)) as H.
  cbv zeta in H. destruct H as (Hlen & _ & _).
  split; [reflexivity | exact Hlen].
Defined.

(** [color_match_completes_once], at a run of two wrong taps and the right
    one. *)
Lemma color_match_completes_once_run :
  exists w,
    run (instance COLORS (@rev ColorOption))
      (mountAt (instance COLORS (@rev ColorOption)) 0)
      [Tap 1000 0; Fire 1500 0; Tap 2000 1; Fire 2500 0; Tap 3000 3; Fire 3300 0]
    = Some w /\
    (calls w <= 1)%nat.
Proof.
  eexists. split; [vm_compute; reflexivity|].
  match goal with
  | |- (calls ?w <= 1)%nat =>
      destruct (color_match_completes_once COLORS (@rev ColorOption) 0
                  [Tap 1000 0; Fire 1500 0; Tap 2000 1; Fire 2500 0;
                   Tap 3000 3; Fire 3300 0]%nat w
                  ltac:(vm_compute; reflexivity)) as [H _]
  end.
  exact H.
Defined.

End ColorPuzzle.

End PuzzleFacts.

(** * The other microgames *)
Module VariantFacts.
Import Microgame MicrogameFacts.

(** ** OddOneOut *)
Section Odd.
Import OddOneOut.
Variables (set : ShapeSet) (oddItemIndex : Z).
Variable g : OddOneOutState.
Hypothesis g_fresh : feedback g = None.

Lemma odd_clear (index : Z) : withFeedback (withFeedback g (Some index)) None = g.
Proof. destruct g. cbn in g_fresh. now subst. Qed.

Lemma odd_step (w w' : World OddOneOutState Callback) (ev : Event) :
  Stage g w -> step (instance set oddItemIndex) w ev = Some w' -> Stage g w'.
Proof.
  intros Hw H. destruct w as [m s q c n].
  destruct Hw as [Hm Hs Hq Hn | i d Hm Hs Hi Hq Hn | i d Hm Hs Hi Hq Hn | i Hm Hs Hi Hq Hn];
    cbn [mounted component queue calls] in *; subst m s q n.
  - (* waiting *)
    destruct ev as [t index | t k]; cbn in H.
    + destruct (c <=? t); cbn in H; [|discriminate H].
      unfold handleItemTap in H. rewrite g_fresh in H.
      destruct (Z.ltb_spec index 0); [discriminate H|].
      destruct (nth_error _ (Z.to_nat index)) as [item|] eqn:E; [|discriminate H].
      destruct (isOdd item) eqn:Ea; injection H as <-.
      * apply (Right g _ index (t + 500)); try reflexivity.
        unfold isOddAt. destruct (Z.leb_spec 0 index); [|lia].
        cbn [andb]. now rewrite E.
      * apply (Wrong g _ index (t + 500)); try reflexivity.
        unfold isOddAt. destruct (Z.leb_spec 0 index); [|lia].
        cbn [andb]. now rewrite E.
    + destruct k; discriminate H.
  - (* feedback of a wrong tap *)
    destruct ev as [t index | t k]; cbn in H.
    + destruct (c <=? t); cbn in H; [|discriminate H]. injection H as <-.
      apply (Wrong g _ i d); auto.
    + destruct k as [|k]; cbn in H; [|destruct k; discriminate H].
      destruct ((c <=? t) && (d <=? t)); [|discriminate H]. injection H as <-.
      apply Waiting; try reflexivity. apply odd_clear.
  - (* feedback of the right tap *)
    destruct ev as [t index | t k]; cbn in H.
    + destruct (c <=? t); cbn in H; [|discriminate H]. injection H as <-.
      apply (Right g _ i d); auto.
    + destruct k as [|k]; cbn in H; [|destruct k; discriminate H].
      destruct ((c <=? t) && (d <=? t)); [|discriminate H]. injection H as <-.
      apply (Done g _ i); auto.
  - (* done *)
    destruct ev as [t index | t k]; cbn in H.
    + rewrite andb_false_r in H. discriminate H.
    + destruct k; discriminate H.
Qed.

End Odd.

Section OddInstance.
Import OddOneOut.
Variables (set : ShapeSet) (oddItemIndex : Z).

(** X13.  OddOneOut calls [onComplete] at most once, whatever the player
    taps and whenever the timeouts fire; it has called it only after a tap
    on the odd item, and once the feedback of that tap is over it has called
    it; after a wrong tap and its feedback the puzzle is as generated, ready
    for the next tap. *)
Theorem odd_one_out_completes_once (t0 : Z) (evs : list Event)
    (w : World OddOneOutState Callback) :
  run (instance set oddItemIndex) (mountAt (instance set oddItemIndex) t0) evs = Some w ->
  (calls w <= 1)%nat /\
  (calls w = 1%nat ->
   exists index, feedback (component w) = Some index /\
                 isOddAt (generateGame set oddItemIndex) index = true) /\
  (forall index, feedback (component w) = Some index ->
                 isOddAt (generateGame set oddItemIndex) index = true ->
                 queue w = [] -> calls w = 1%nat) /\
  (feedback (component w) = None ->
   component w = generateGame set oddItemIndex /\ queue w = [] /\ mounted w = true).
Proof.
  intros H.
  assert (Stage (generateGame set oddItemIndex) w) as Hw.
  { eapply (run_preserves (instance set oddItemIndex)
              (Stage (generateGame set oddItemIndex))); [| |exact H].
    - intros; eapply odd_step; eauto; reflexivity.
    - apply Waiting; reflexivity. }
  destruct Hw as [Hm Hs Hq Hn | i d Hm Hs Hi Hq Hn | i d Hm Hs Hi Hq Hn | i Hm Hs Hi Hq Hn];
    rewrite Hs, Hn, Hq, ?Hm; cbn [withFeedback feedback generateGame]; repeat split;
    try lia; try discriminate; try congruence; eauto.
Qed.

(** X14.  For a set of [SHAPE_SETS] and a position 0..7, the generated grid
    has eight items; the item at the position is the only odd one, the seven
    others look alike, and the odd one looks different from them. *)
Theorem odd_one_out_one_odd :
  In set SHAPE_SETS ->
  0 <= oddItemIndex < 8 ->
  let g := generateGame set oddItemIndex in
  List.length (items g) = 8%nat /\
  (forall j, isOddAt g j = true <-> j = oddItemIndex) /\
  exists usual strange,
    usual <> strange /\
    forall j item, nth_error (items g) j = Some item ->
                   look item = if Z.of_nat j =? oddItemIndex then strange else usual.
Proof.
  intros Hset Hodd. cbv zeta. split; [reflexivity|]. split.
  - intros j. unfold isOddAt, generateGame. cbn [items].
    destruct (Z.leb_spec 0 j); cbn [andb]; [|split; [discriminate | lia]].
    rewrite nth_error_map.
    destruct (nth_error [0; 1; 2; 3; 4; 5; 6; 7] (Z.to_nat j)) as [i|] eqn:E;
      cbn [option_map isOdd].
    + assert (i = j) as ->.
      { destruct (Z.to_nat j) as [|[|[|[|[|[|[|[|n]]]]]]]] eqn:Ej; cbn in E;
          try (injection E as <-; lia). destruct n; discriminate E. }
      rewrite Z.eqb_eq. reflexivity.
    + split; [discriminate|]. intros ->.
      apply nth_error_None in E. cbn in E. lia.
  - exists (Config.shape (normal set), Config.color (normal set),
            Config.size (normal set), Config.rotation (normal set)),
           (Config.shape (odd set), Config.color (odd set),
            Config.size (odd set), Config.rotation (odd set)).
    split.
    + unfold SHAPE_SETS in Hset. cbn in Hset.
      destruct Hset as [<- | [<- | [<- | [<- | []]]]]; cbn; congruence.
    + intros j item. unfold generateGame. cbn [items]. rewrite nth_error_map.
      destruct (nth_error [0; 1; 2; 3; 4; 5; 6; 7] j) as [i|] eqn:E;
        cbn [option_map]; [|discriminate].
      assert (i = Z.of_nat j) as ->.
      { destruct j as [|[|[|[|[|[|[|[|n]]]]]]]]; cbn in E;
          try (injection E as <-; reflexivity). destruct n; discriminate E. }
      intros [= <-]. unfold look. cbn [shape color size rotation].
      destruct (Z.of_nat j =? oddItemIndex); reflexivity.
Qed.

End OddInstance.

(** The rotated triangle at position 5: a wrong tap, then the odd item. *)
Lemma odd_one_out_completes_once_run :
  exists set w,
    nth_error OddOneOut.SHAPE_SETS 2 = Some set /\
    run (OddOneOut.instance set 5) (mountAt (OddOneOut.instance set 5) 0)
      [Tap 1000 0; Fire 1500 0; Tap 2000 5; Fire 2500 0] = Some w /\
    calls w = 1%nat /\ (calls w <= 1)%nat.
Proof.
  let s := eval vm_compute in (nth 2 OddOneOut.SHAPE_SETS
                                 (nth 0 OddOneOut.SHAPE_SETS
                                    {| OddOneOut.normal := {| OddOneOut.Config.shape := "";
                                         OddOneOut.Config.color := "";
                                         OddOneOut.Config.size := 0;
                                         OddOneOut.Config.rotation := 0 |};
                                       OddOneOut.odd := {| OddOneOut.Config.shape := "";
                                         OddOneOut.Config.color := "";
                                         OddOneOut.Config.size := 0;
                                         OddOneOut.Config.rotation := 0 |} |})) in
  let r := eval vm_compute in
      (run (OddOneOut.instance s 5) (mountAt (OddOneOut.instance s 5) 0)
         [Tap 1000 0; Fire 1500 0; Tap 2000 5; Fire 2500 0]%nat) in
  match r with
  | Some ?w =>
      assert (Hrun : run (OddOneOut.instance s 5) (mountAt (OddOneOut.instance s 5) 0)
                       [Tap 1000 0; Fire 1500 0; Tap 2000 5; Fire 2500 0]%nat = Some w)
        by (vm_compute; reflexivity);
      exists s, w; split; [reflexivity|]; split; [exact Hrun|]; split; [reflexivity|];
      exact (proj1 (odd_one_out_completes_once s 5 0 _ w Hrun))
  end.
Defined.

(** The larger star at position 3. *)
Lemma odd_one_out_one_odd_star :
  exists set,
    nth_error OddOneOut.SHAPE_SETS 3 = Some set /\
    OddOneOut.isOddAt (OddOneOut.generateGame set 3) 3 = true /\
    List.length (OddOneOut.items (OddOneOut.generateGame set 3)) = 8%nat.
Proof.
  eexists. split; [reflexivity|].
  match goal with
  | |- OddOneOut.isOddAt (OddOneOut.generateGame ?set _) _ = _ /\ _ =>
      pose proof (odd_one_out_one_odd set 3
                    ltac:(cbn; auto 6) ltac:(lia)) as H
  end.
  cbv zeta in H. destruct H as (Hlen & Hodd & _).
  split; [apply Hodd; reflexivity | exact Hlen].
Defined.


(** ** SpeedTap *)
Section Speed.
Import SpeedTap.

Lemma board_generated (targetIndex : Z) :
  0 <= targetIndex < 4 -> buttons (generateGame targetIndex) = board targetIndex.
Proof.
  intros H.
  assert (targetIndex = 0 \/ targetIndex = 1 \/ targetIndex = 2 \/ targetIndex = 3)
    as [-> | [-> | [-> | ->]]] by lia; reflexivity.
Qed.

Lemma retarget_board (old new : Z) : retarget (board old) new = board new.
Proof. reflexivity. Qed.

Lemma selectNewTarget_spec (draws : list Z) (current : Z) :
  Forall (fun d => 0 <= d < 4) draws ->
  forall newTarget rest,
    selectNewTarget draws current = Some (newTarget, rest) ->
    0 <= newTarget < 4 /\ newTarget <> current /\ Forall (fun d => 0 <= d < 4) rest.
Proof.
  induction 1 as [|d draws Hd Hrest IH]; intros newTarget rest E; cbn in E;
    [discriminate E|].
  destruct (Z.eqb_spec d current).
  - now apply IH.
  - injection E as <- <-. auto.
Qed.

Lemma pending_app (q l : list (Pending Callback)) :
  pendingCompletions (q ++ l) = (pendingCompletions q + pendingCompletions l)%nat.
Proof. unfold pendingCompletions. now rewrite filter_app, length_app. Qed.

Lemma pending_dropNth (q : list (Pending Callback)) :
  forall (k : nat) (p : Pending Callback),
    nth_error q k = Some p ->
    pendingCompletions q
    = (pendingCompletions (dropNth k q) + if isCompletion p then 1 else 0)%nat.
Proof.
  unfold pendingCompletions, dropNth.
  induction q as [|x q IH]; intros [|k] p E; cbn in E; try discriminate E.
  - injection E as ->. cbn. destruct (isCompletion p); cbn; lia.
  - specialize (IH k p E). cbn [firstn skipn app filter] in *.
    destruct (isCompletion x); cbn [List.length]; lia.
Qed.

Lemma speed_mount (targetIndex : Z) (draws : list Z) (t0 : Z) :
  0 <= targetIndex < 4 ->
  Forall (fun d => 0 <= d < 4) draws ->
  Sound (mountAt (instance targetIndex draws) t0).
Proof.
  intros Ht Hd. constructor; cbn; try lia; try discriminate; auto.
  split; [lia | now apply board_generated].
Qed.

Lemma speed_step (targetIndex : Z) (draws : list Z)
    (w w' : World Cells Callback) (ev : Event) :
  Sound w -> step (instance targetIndex draws) w ev = Some w' -> Sound w'.
Proof.
  intros [[Hrange Hboard] Hreq Hdraws Hcount Hcalls Hmount] H.
  destruct w as [m [gs rnd] q c n]. cbn [mounted component queue calls gameState random] in *.
  destruct ev as [t index | t k];
    cbn [step instance tap fire mounted clock component queue] in H.
  - (* a tap *)
    destruct ((c <=? t) && m) eqn:Eg; [|discriminate H].
    apply andb_prop in Eg as [_ ->].
    unfold handleButtonTap in H. cbn [gameState random] in H.
    destruct (index <? 0); [discriminate H|].
    destruct (nth_error (buttons gs) (Z.to_nat index)) as [button|]; [|discriminate H].
    destruct (isTarget button).
    + rewrite Hreq in H.
      destruct (if (Z.rem (tapCount gs + 1) 3 =? 0) && (tapCount gs + 1 <? 15)
                then selectNewTarget rnd (SpeedTap.targetIndex gs)
                else Some (SpeedTap.targetIndex gs, rnd)) as [[newTarget rest]|] eqn:Esel;
        [|discriminate H].
      assert (0 <= newTarget < 4 /\ Forall (fun d => 0 <= d < 4) rest) as [Hnew Hrest].
      { destruct ((Z.rem (tapCount gs + 1) 3 =? 0) && (tapCount gs + 1 <? 15)).
        - destruct (selectNewTarget_spec _ _ Hdraws _ _ Esel) as (? & _ & ?). auto.
        - injection Esel as <- <-. auto. }
      injection H as <-.
      constructor; cbn [react mounted component queue calls gameState random
                          next timeouts completions buttons SpeedTap.targetIndex tapCount
                          requiredTaps andb Nat.eqb]; auto; try lia; try discriminate.
      * split; [exact Hnew|]. rewrite Hboard. apply retarget_board.
      * rewrite pending_app, Nat.add_0_r.
        destruct (Z.leb_spec 15 (tapCount gs + 1)); cbn; lia.
    + injection H as <-.
      constructor; cbn [react mounted component queue calls gameState random
                          next timeouts completions buttons SpeedTap.targetIndex tapCount
                          requiredTaps andb Nat.eqb]; auto; try lia; try discriminate.
      rewrite pending_app, Nat.add_0_r. cbn. lia.
  - (* a timeout *)
    destruct (nth_error q k) as [p|] eqn:Ek; [|discriminate H].
    destruct ((c <=? t) && (due p <=? t)); [|discriminate H].
    injection H as <-.
    pose proof (pending_dropNth q k p Ek) as Hp. unfold isCompletion in Hp.
    destruct p as [d cb]. cbn [callback] in *.
    destruct cb; destruct m;
      constructor; cbn [react mounted component queue calls gameState random
                          next timeouts completions buttons SpeedTap.targetIndex tapCount
                          requiredTaps timeout schedule map andb Nat.eqb];
      rewrite ?app_nil_r; auto; try lia; try discriminate.
Qed.

(** X15.  SpeedTap, mounted with a target and draws in 0..3: at every moment
    exactly one button is the target, the one at [targetIndex]; no call of
    [onComplete] is made or set before the fifteenth correct tap; from the
    fifteenth on every correct tap sets one, so the calls made and set are
    the correct taps minus 14. *)
Theorem speed_tap_counts (targetIndex : Z) (draws : list Z) (t0 : Z)
    (evs : list Event) (w : World Cells Callback) :
  0 <= targetIndex < 4 ->
  Forall (fun d => 0 <= d < 4) draws ->
  run (instance targetIndex draws) (mountAt (instance targetIndex draws) t0) evs = Some w ->
  let s := gameState (component w) in
  (forall j b, nth_error (buttons s) j = Some b ->
               (isTarget b = true <-> Z.of_nat j = SpeedTap.targetIndex s)) /\
  (exists b, nth_error (buttons s) (Z.to_nat (SpeedTap.targetIndex s)) = Some b) /\
  0 <= tapCount s /\
  (tapCount s < 15 -> calls w = 0%nat /\ pendingCompletions (queue w) = 0%nat) /\
  (15 <= tapCount s ->
   Z.of_nat (calls w + pendingCompletions (queue w)) = tapCount s - 14).
Proof.
  intros Ht Hd H. cbv zeta.
  assert (Sound w) as [[Hrange Hboard] Hreq Hdraws Hcount Hcalls Hmount].
  { eapply (run_preserves (instance targetIndex draws) Sound); [| |exact H].
    - intros; eapply speed_step; eauto.
    - now apply speed_mount. }
  rewrite Hboard. split; [|split; [|split; [exact Hcount|split]]].
  - intros j b Hj.
    assert (SpeedTap.targetIndex (gameState (component w)) = 0 \/
            SpeedTap.targetIndex (gameState (component w)) = 1 \/
            SpeedTap.targetIndex (gameState (component w)) = 2 \/
            SpeedTap.targetIndex (gameState (component w)) = 3)
      as [E | [E | [E | E]]] by lia; rewrite E in *;
      (destruct j as [|[|[|[|j]]]]; cbn in Hj; [..|destruct j; discriminate Hj]);
      injection Hj as <-; cbn; split; intros; try lia; try discriminate; reflexivity.
  - assert (SpeedTap.targetIndex (gameState (component w)) = 0 \/
            SpeedTap.targetIndex (gameState (component w)) = 1 \/
            SpeedTap.targetIndex (gameState (component w)) = 2 \/
            SpeedTap.targetIndex (gameState (component w)) = 3)
      as [-> | [-> | [-> | ->]]] by lia; eexists; reflexivity.
  - intros Hlt. lia.
  - intros Hge. lia.
Qed.

End Speed.

(** Sixteen correct taps, the last two 100 ms apart: [onComplete] is called
    twice. *)
Lemma speed_tap_counts_sixteen :
  let M := SpeedTap.instance 0 [0; 1; 1; 2; 2; 3; 3; 0] in
  let taps :=
    [Tap 100 0; Tap 200 0; Tap 300 0; Tap 400 1; Tap 500 1; Tap 600 1;
     Tap 700 2; Tap 800 2; Tap 900 2; Tap 1000 3; Tap 1100 3; Tap 1200 3;
     Tap 1300 0; Tap 1400 0; Tap 1500 0; Tap 1600 0] in
  exists w,
    run M (mountAt M 0) taps = Some w /\
    SpeedTap.tapCount (SpeedTap.gameState (component w)) = 16 /\
    Z.of_nat (calls w + SpeedTap.pendingCompletions (queue w)) = 2.
Proof.
  intros M taps.
  let r := eval vm_compute in (run M (mountAt M 0) taps) in
  match r with
  | Some ?w =>
      assert (Hrun : run M (mountAt M 0) taps = Some w) by (vm_compute; reflexivity);
      exists w; split; [exact Hrun|]; split; [reflexivity|];
      pose proof (speed_tap_counts 0 [0; 1; 1; 2; 2; 3; 3; 0] 0 taps w
                    ltac:(lia)
                    ltac:(repeat (constructor; [lia|]); constructor)
                    Hrun) as H
  end.
  cbv zeta in H. destruct H as (_ & _ & _ & _ & H).
  exact (H ltac:(vm_compute; discriminate)).
Defined.


(** ** SequenceMemory *)
Section Sequence.
Import SequenceMemory SequenceMemoryRun.
Variable s : list Z.

Lemma In_dropNth {A : Type} (k : nat) (l : list A) (x : A) :
  In x (dropNth k l) -> In x l.
Proof.
  unfold dropNth. intros H. apply in_app_or in H as [H | H].
  - rewrite <- (firstn_skipn k l). apply in_or_app. now left.
  - rewrite <- (firstn_skipn (S k) l). apply in_or_app. now right.
Qed.

Lemma sequence_mount (t0 : Z) : Sound s (mountAt (instance s) t0).
Proof.
  constructor; cbn.
  - reflexivity.
  - now exists s.
  - intros _. repeat split. intros p [<- | []]. exact I.
Qed.

Lemma sequence_step (w w' : World SequenceMemoryState Callback) (ev : Event) :
  Sound s w -> step (instance s) w ev = Some w' -> Sound s w'.
Proof.
  intros [Hseq [rest Hrest] Hshow] H.
  destruct w as [m gs q c n]. cbn [mounted component queue calls] in *.
  destruct ev as [t index | t k];
    cbn [step instance Microgame.tap Microgame.fire mounted clock component queue] in H.
  - (* a tap *)
    destruct ((c <=? t) && m) eqn:Eg; [|discriminate H].
    apply andb_prop in Eg as [_ ->].
    unfold SequenceMemory.tap in H.
    destruct (existsb (Z.eqb index) BUTTONS); [|discriminate H].
    injection H as <-. unfold handleButtonTap.
    destruct (isInput (phase gs)) eqn:Ep; cbn [negb orb].
    + assert (phase gs = input) as Ei by (destruct (phase gs); [discriminate | reflexivity]).
      destruct (isPlaying gs).
      * constructor; cbn; rewrite ?Nat.add_0_r, ?app_nil_r; eauto; try (rewrite Ei; discriminate).
      * destruct (nth_error (sequence gs) (List.length (playerSequence gs)))
          as [b|] eqn:Eb.
        -- destruct (Z.eqb_spec index b) as [-> | Hne].
           ++ constructor; cbn; rewrite ?Nat.add_0_r, ?app_nil_r; auto; try (rewrite Ei; discriminate).
              rewrite Hseq, Hrest in Eb.
              rewrite nth_error_app2, Nat.sub_diag in Eb by lia.
              destruct rest as [|r rest]; [discriminate Eb|]. injection Eb as ->.
              exists rest. rewrite Hrest, <- app_assoc. reflexivity.
           ++ constructor; cbn; rewrite ?Nat.add_0_r, ?app_nil_r; eauto; try (rewrite Ei; discriminate).
        -- constructor; cbn; rewrite ?Nat.add_0_r, ?app_nil_r; eauto; try (rewrite Ei; discriminate).
    + assert (phase gs = showing) as Ei by (destruct (phase gs); [reflexivity | discriminate]).
      constructor; cbn; rewrite ?Nat.add_0_r, ?app_nil_r; eauto.
  - (* a timeout *)
    destruct (nth_error q k) as [p|] eqn:Ek; [|discriminate H].
    destruct ((c <=? t) && (due p <=? t)); [|discriminate H].
    injection H as <-.
    assert (In p q) as Hin by (eapply nth_error_In; eauto).
    destruct p as [d cb]. cbn [callback] in *.
    destruct (phase gs) eqn:Ep.
    + (* during the demonstration *)
      destruct (Hshow eq_refl) as (Hps & Hn & Hm & Hq). subst m n.
      pose proof (Hq _ Hin) as Hcb. cbn [callback] in Hcb.
      destruct cb as [seq i | seq i | | b | |]; try contradiction.
      * unfold timeout. destruct (nth_error seq i);
          (constructor; cbn; rewrite ?Nat.add_0_r; [eauto | eauto |]);
          intros _; repeat split; auto;
          intros p Hp; apply in_app_or in Hp as [Hp | Hp];
          try (apply (Hq p); eapply In_dropNth; eassumption);
          destruct Hp as [<- | []]; exact I.
      * constructor; cbn; rewrite ?Nat.add_0_r; [eauto | eauto |].
        intros _; repeat split; auto.
        intros p Hp; apply in_app_or in Hp as [Hp | Hp].
        -- apply (Hq p). eapply In_dropNth; eassumption.
        -- destruct Hp as [<- | []]. exact I.
      * constructor; cbn; rewrite ?Nat.add_0_r; [eauto | now exists s | discriminate].
    + (* during the input *)
      destruct cb as [seq i | seq i | | b | |]; unfold timeout;
        try destruct (nth_error seq i); destruct m;
        (constructor; cbn; rewrite ?Nat.add_0_r, ?app_nil_r;
         [eauto | eauto; try (now exists s) | try discriminate; try (rewrite Ep; discriminate)]).
Qed.

(** X16.  In every state of a SequenceMemory instance the sequence is the
    one generated at mount and what the player has entered is a beginning
    of it, at most as long; while the demonstration runs nothing is entered
    and [onComplete] is neither called nor set. *)
Theorem sequence_memory_progress (t0 : Z) (evs : list Event)
    (w : World SequenceMemoryState Callback) :
  run (instance s) (mountAt (instance s) t0) evs = Some w ->
  sequence (component w) = s /\
  (exists rest, s = playerSequence (component w) ++ rest) /\
  (List.length (playerSequence (component w)) <= List.length s)%nat /\
  (phase (component w) = showing ->
   playerSequence (component w) = [] /\
   calls w = 0%nat /\
   filter SequenceMemoryRun.isCompletion (queue w) = []).
Proof.
  intros H.
  assert (Sound s w) as [Hseq [rest Hrest] Hshow].
  { eapply (run_preserves (instance s) (Sound s)); [| |exact H].
    - intros; eapply sequence_step; eauto.
    - apply sequence_mount. }
  split; [exact Hseq|]. split; [eauto|]. split.
  - apply (f_equal (@List.length Z)) in Hrest. rewrite length_app in Hrest. lia.
  - intros Hp. destruct (Hshow Hp) as (Hps & Hn & _ & Hq).
    repeat split; auto.
    assert (forall l, (forall p, In p l -> In p (queue w)) ->
                      filter SequenceMemoryRun.isCompletion l = []) as Hf.
    { induction l as [|p l IH]; intros Hl; cbn; [reflexivity|].
      pose proof (Hq p (Hl p (or_introl eq_refl))) as Hcb.
      unfold SequenceMemoryRun.isCompletion at 1.
      destruct (callback p); try contradiction; apply IH; intros; apply Hl; now right. }
    apply Hf. auto.
Qed.

(** One step of [playSequence] at a time. *)
Lemma play_flash (i : nat) (b t c : Z) :
  nth_error s i = Some b -> c <= t ->
  let W := {| mounted := true;
              component := {| sequence := s; playerSequence := []; isPlaying := true;
                              currentFlash := None; phase := showing;
                              buttonFeedback := noFeedback |};
              queue := [{| due := t; callback := PlayFrom s i |}];
              clock := c;
              calls := 0 |} in
  punctual W (Fire t 0) = true /\
  step (instance s) W (Fire t 0)
  = Some {| mounted := true;
            component := {| sequence := s; playerSequence := []; isPlaying := true;
                            currentFlash := Some b; phase := showing;
                            buttonFeedback := noFeedback |};
            queue := [{| due := t + 400; callback := FlashOff s i |}];
            clock := t;
            calls := 0 |}.
Proof.
  intros En Hc. apply Z.leb_le in Hc. cbn -[Z.add Z.leb Z.eqb].
  rewrite En, Hc, ?Z.eqb_refl, ?Z.leb_refl. cbn. split; reflexivity.
Qed.

Lemma play_dark (i : nat) (b t c : Z) :
  c <= t ->
  let W := {| mounted := true;
              component := {| sequence := s; playerSequence := []; isPlaying := true;
                              currentFlash := Some b; phase := showing;
                              buttonFeedback := noFeedback |};
              queue := [{| due := t; callback := FlashOff s i |}];
              clock := c;
              calls := 0 |} in
  punctual W (Fire t 0) = true /\
  step (instance s) W (Fire t 0)
  = Some {| mounted := true;
            component := {| sequence := s; playerSequence := []; isPlaying := true;
                            currentFlash := None; phase := showing;
                            buttonFeedback := noFeedback |};
            queue := [{| due := t + 200; callback := PlayFrom s (S i) |}];
            clock := t;
            calls := 0 |}.
Proof.
  intros Hc. apply Z.leb_le in Hc. cbn -[Z.add Z.leb Z.eqb].
  rewrite Hc, ?Z.eqb_refl, ?Z.leb_refl. cbn. split; reflexivity.
Qed.

Lemma play_end (i : nat) (t c : Z) :
  nth_error s i = None -> c <= t ->
  let W := {| mounted := true;
              component := {| sequence := s; playerSequence := []; isPlaying := true;
                              currentFlash := None; phase := showing;
                              buttonFeedback := noFeedback |};
              queue := [{| due := t; callback := PlayFrom s i |}];
              clock := c;
              calls := 0 |} in
  punctual W (Fire t 0) = true /\
  step (instance s) W (Fire t 0)
  = Some {| mounted := true;
            component := {| sequence := s; playerSequence := []; isPlaying := true;
                            currentFlash := None; phase := showing;
                            buttonFeedback := noFeedback |};
            queue := [{| due := t + 300; callback := BeginInput |}];
            clock := t;
            calls := 0 |}.
Proof.
  intros En Hc. apply Z.leb_le in Hc. cbn -[Z.add Z.leb Z.eqb].
  rewrite En, Hc, ?Z.eqb_refl, ?Z.leb_refl. cbn. split; reflexivity.
Qed.

Lemma play_input (t c : Z) :
  c <= t ->
  let W := {| mounted := true;
              component := {| sequence := s; playerSequence := []; isPlaying := true;
                              currentFlash := None; phase := showing;
                              buttonFeedback := noFeedback |};
              queue := [{| due := t; callback := BeginInput |}];
              clock := c;
              calls := 0 |} in
  punctual W (Fire t 0) = true /\
  step (instance s) W (Fire t 0)
  = Some {| mounted := true;
            component := {| sequence := s; playerSequence := []; isPlaying := false;
                            currentFlash := None; phase := input;
                            buttonFeedback := noFeedback |};
            queue := [];
            clock := t;
            calls := 0 |}.
Proof.
  intros Hc. apply Z.leb_le in Hc. cbn -[Z.add Z.leb Z.eqb].
  rewrite Hc, ?Z.eqb_refl, ?Z.leb_refl. cbn. split; reflexivity.
Qed.

(** The world in which the player's turn begins. *)
Lemma flashes_run (k : nat) :
  forall (i : nat) (t c : Z),
    List.length s = (i + k)%nat ->
    c <= t ->
    let W := {| mounted := true;
                component := {| sequence := s; playerSequence := []; isPlaying := true;
                                currentFlash := None; phase := showing;
                                buttonFeedback := noFeedback |};
                queue := [{| due := t; callback := PlayFrom s i |}];
                clock := c;
                calls := 0 |} in
    onTime (instance s) W (flashes t k) = true /\
    run (instance s) W (flashes t k)
    = Some {| mounted := true;
              component := {| sequence := s; playerSequence := []; isPlaying := false;
                              currentFlash := None; phase := input;
                              buttonFeedback := noFeedback |};
              queue := [];
              clock := t + 600 * Z.of_nat k + 300;
              calls := 0 |}.
Proof.
  induction k as [|k IH]; intros i t c Hlen Hc; cbv zeta.
  - assert (nth_error s i = None) as En by (apply nth_error_None; lia).
    destruct (play_end i t c En Hc) as [P1 S1].
    destruct (play_input (t + 300) t ltac:(lia)) as [P2 S2].
    cbv zeta in P1, S1, P2, S2.
    cbn [flashes onTime run]. rewrite P1, S1. cbn [andb onTime run].
    rewrite P2, S2. cbn [andb onTime run].
    split; [reflexivity|]. do 2 f_equal. lia.
  - destruct (nth_error s i) as [b|] eqn:En;
      [|apply nth_error_None in En; lia].
    destruct (play_flash i b t c En Hc) as [P1 S1].
    destruct (play_dark i b (t + 400) t ltac:(lia)) as [P2 S2].
    destruct (IH (S i) (t + 600) (t + 400) ltac:(lia) ltac:(lia)) as [Hon Hrun].
    cbv zeta in P1, S1, P2, S2, Hon, Hrun.
    replace (t + 400 + 200) with (t + 600) in S2 by lia.
    cbn [flashes onTime run]. rewrite P1, S1. cbn [andb onTime run].
    rewrite P2, S2. cbn [andb].
    rewrite Hon, Hrun.
    split; [reflexivity|]. do 2 f_equal. lia.
Qed.

(** X17.  The demonstration of SequenceMemory, left to itself, takes
    500 + 600 n + 300 ms for a sequence of [n] buttons, every timeout firing
    when it is due: then the player's turn begins, with nothing entered, no
    timeout pending and no call of [onComplete] made. *)
Theorem sequence_memory_demonstration (t0 : Z) :
  onTime (instance s) (mountAt (instance s) t0)
    (demonstration t0 (List.length s)) = true /\
  run (instance s) (mountAt (instance s) t0) (demonstration t0 (List.length s))
  = Some {| mounted := true;
            component := {| sequence := s; playerSequence := []; isPlaying := false;
                            currentFlash := None; phase := input;
                            buttonFeedback := noFeedback |};
            queue := [];
            clock := t0 + 800 + 600 * Z.of_nat (List.length s);
            calls := 0 |}.
Proof.
  destruct (flashes_run (List.length s) 0 (t0 + 500) t0 eq_refl ltac:(lia))
    as [Hon Hrun].
  cbv zeta in Hon, Hrun. unfold demonstration, mountAt. cbn [instance mount fst snd schedule map].
  split; [exact Hon|].
  rewrite Hrun. do 2 f_equal. lia.
Qed.

End Sequence.

(** Two taps into the sequence 0 1 2 3, then a wrong one. *)
Lemma sequence_memory_progress_run :
  let M := SequenceMemory.instance [0; 1; 2; 3] in
  let evs := SequenceMemoryRun.demonstration 0 4
             ++ [Tap 4000 0; Tap 4100 1; Tap 4200 3] in
  exists w,
    run M (mountAt M 0) evs = Some w /\
    SequenceMemory.playerSequence (component w) = [0; 1] /\
    (List.length (SequenceMemory.playerSequence (component w)) <= 4)%nat.
Proof.
  intros M evs.
  let r := eval vm_compute in (option_map (fun w => SequenceMemory.playerSequence
                                                       (component w))
                                 (run M (mountAt M 0) evs)) in
  match r with
  | Some ?l =>
      destruct (run M (mountAt M 0) evs) as [w|] eqn:Hrun;
      [|vm_compute in Hrun; discriminate Hrun];
      exists w; split; [reflexivity|];
      assert (SequenceMemory.playerSequence (component w) = l) as El
        by (assert (option_map (fun w => SequenceMemory.playerSequence (component w))
                      (run M (mountAt M 0) evs) = Some l) as E
              by (vm_compute; reflexivity);
            rewrite Hrun in E; now injection E);
      split; [exact El|];
      destruct (sequence_memory_progress [0; 1; 2; 3] 0 evs w Hrun) as (_ & _ & Hlen & _);
      exact Hlen
  end.
Defined.

End VariantFacts.
